(** * ShaderTypes.h: the CPU/GPU shared data layout

    The header [SpatialDynamicMesh/ShaderTypes.h] is included both by the
    host program and by the Metal shaders.  It declares two records,
    [MeshVertex] and [WaveDescriptor], and, when [__METAL__] is not defined,
    a fallback [packed_float3].

    This development embeds the header as a list of declarations, runs the
    preprocessor and the elaboration of types on it for each of the two
    translation-unit contexts, lays the records out with the struct layout
    rule shared by the two compilers (members in declaration order, each at
    the next offset that is a multiple of its alignment, the size rounded up
    to the alignment of the record), and states the byte-level properties of
    the records over that layout. *)

From Stdlib Require Import ZArith List String Bool Lia SpecFloat.
From Stdlib.Strings Require Import Byte.
Import ListNotations.

Local Open Scope string_scope.
Set Warnings "-register-all".

(** ** Syntax of the header *)

(** Type specifiers that occur in member declarations. *)
Inductive type_spec : Type :=
| Float                       (* float *)
| UnsignedInt                 (* unsigned int *)
| TypeName (name : string).   (* a typedef or built-in name *)

(** A member declaration [ty name;]. *)
Definition member : Type := (type_spec * string)%type.

(** Compile-time layout conditions ([sizeof] and [offsetof] compared with a
    constant), the operand of a static assertion. *)
Inductive layout_cond : Type :=
| SizeofIs (ty : string) (n : nat)
| OffsetofIs (ty : string) (fld : string) (n : nat).

(** Top-level lines of a header. *)
Inductive directive : Type :=
| PragmaOnce
| Include (header : string)
| IfNDef (macro : string) (body : list directive)
| TypedefStruct (members : list member) (name : string)
| StructDef (name : string) (members : list member)
| StaticAssert (c : layout_cond).

(** The header, line by line. *)
Definition ShaderTypes_h : list directive :=
  [ PragmaOnce;
    Include "simd/simd.h";
    IfNDef "__METAL__"
      [ TypedefStruct [(Float, "x"); (Float, "y"); (Float, "z")]
                      "packed_float3" ];
    StructDef "MeshVertex"
      [ (TypeName "packed_float3", "position");
        (TypeName "packed_float3", "normal");
        (TypeName "simd_packed_float2", "uv") ];
    StructDef "WaveDescriptor"
      [ (UnsignedInt, "segmentCount");
        (Float, "time");
        (Float, "waveDensity");
        (Float, "amplitude") ] ].

(** ** Translation-unit contexts *)

(** The header is compiled by the host compiler and by the Metal shader
    compiler; only the latter predefines [__METAL__]. *)
Inductive context : Type := Host | Metal.

Definition predefined (ctx : context) : list string :=
  match ctx with
  | Host => []
  | Metal => ["__METAL__"]
  end.

Definition is_defined (macros : list string) (m : string) : bool :=
  existsb (String.eqb m) macros.

(** The preprocessor: an [#ifndef] block is kept when its macro is not
    defined, every other line is kept as it is. *)
Fixpoint preprocess (macros : list string) (d : directive) : list directive :=
  match d with
  | IfNDef m body =>
      if is_defined macros m then []
      else flat_map (preprocess macros) body
  | _ => [d]
  end.

Definition preprocess_file (macros : list string) (f : list directive)
  : list directive :=
  flat_map (preprocess macros) f.

(** ** Types *)

Inductive scalar : Type := F32 | U32.

(** Elaborated types.  [Tpacked n] is a packed vector of [n] floats,
    [Tsimd n] the SIMD vector of [n] floats that is aligned to its own
    size. *)
Inductive ctype : Type :=
| Tfloat
| Tuint
| Tpacked (n : nat)
| Tsimd (n : nat)
| Tstruct (fields : list (string * ctype)).

Definition env : Type := list (string * ctype).

Fixpoint lookup (name : string) (e : env) : option ctype :=
  match e with
  | [] => None
  | (n, t) :: r => if String.eqb name n then Some t else lookup name r
  end.

(** Modelled from the spec: the Metal compiler's built-in [packed_float3]
    is not declared in any file of the repository.  The spec describes
    [position] and [normal] as "3 packed single-precision floating-point
    components ... tightly packed with no padding between components", and a
    packed vector as "a fixed-size group of scalar components stored with no
    padding". *)
Definition builtin_types (ctx : context) : env :=
  match ctx with
  | Host => []
  | Metal => [("packed_float3", Tpacked 3)]
  end.

(** Modelled from the spec: [<simd/simd.h>] is a system header, not a file
    of the repository.  The spec describes [uv] as a "2-component packed
    single-precision floating-point vector"; [simd_float3] is the
    "default vector type (which may over-align for SIMD purposes)" of the
    design notes, kept here for contrast only. *)
Definition system_header (h : string) : option env :=
  if String.eqb h "simd/simd.h"
  then Some [("simd_packed_float2", Tpacked 2); ("simd_float3", Tsimd 3)]
  else None.

(** ** Layout *)

Definition align_up (n a : nat) : nat := ((n + a - 1) / a) * a.

Definition scalar_size : nat := 4.

(** Lanes of storage of a SIMD vector: a 3-vector is stored as a 4-vector. *)
Definition simd_lanes (n : nat) : nat := if Nat.eqb n 3 then 4 else n.

Fixpoint alignof (t : ctype) : nat :=
  match t with
  | Tfloat | Tuint => scalar_size
  | Tpacked _ => scalar_size
  | Tsimd n => scalar_size * simd_lanes n
  | Tstruct fs =>
      (fix go (fs : list (string * ctype)) : nat :=
         match fs with
         | [] => 1
         | (_, ft) :: r => Nat.max (alignof ft) (go r)
         end) fs
  end.

Fixpoint sizeof (t : ctype) : nat :=
  match t with
  | Tfloat | Tuint => scalar_size
  | Tpacked n => scalar_size * n
  | Tsimd n => scalar_size * simd_lanes n
  | Tstruct fs =>
      align_up
        ((fix go (fs : list (string * ctype)) (off : nat) : nat :=
            match fs with
            | [] => off
            | (_, ft) :: r => go r (align_up off (alignof ft) + sizeof ft)
            end) fs 0)
        (alignof t)
  end.

(** Offsets of the members of a record, in declaration order. *)
Fixpoint member_offsets (fs : list (string * ctype)) (off : nat)
  : list (string * nat) :=
  match fs with
  | [] => []
  | (n, ft) :: r =>
      let o := align_up off (alignof ft) in
      (n, o) :: member_offsets r (o + sizeof ft)
  end.

Definition offsetof (t : ctype) (fld : string) : option nat :=
  match t with
  | Tstruct fs =>
      match find (fun p => String.eqb fld (fst p)) (member_offsets fs 0) with
      | Some (_, o) => Some o
      | None => None
      end
  | _ => None
  end.

(** ** Elaboration *)

Definition elab_type (e : env) (ts : type_spec) : option ctype :=
  match ts with
  | Float => Some Tfloat
  | UnsignedInt => Some Tuint
  | TypeName n => lookup n e
  end.

Fixpoint elab_members (e : env) (ms : list member)
  : option (list (string * ctype)) :=
  match ms with
  | [] => Some []
  | (ts, n) :: r =>
      match elab_type e ts, elab_members e r with
      | Some t, Some fs => Some ((n, t) :: fs)
      | _, _ => None
      end
  end.

(** Declaring a name that is already declared is an error. *)
Definition declare (e : env) (name : string) (ms : list member) : option env :=
  match lookup name e, elab_members e ms with
  | None, Some fs => Some ((name, Tstruct fs) :: e)
  | _, _ => None
  end.

Definition eval_cond (e : env) (c : layout_cond) : bool :=
  match c with
  | SizeofIs ty n =>
      match lookup ty e with
      | Some t => Nat.eqb (sizeof t) n
      | None => false
      end
  | OffsetofIs ty fld n =>
      match lookup ty e with
      | Some t =>
          match offsetof t fld with
          | Some o => Nat.eqb o n
          | None => false
          end
      | None => false
      end
  end.

(** Elaboration of a preprocessed file; [None] is a compile error. *)
Fixpoint elaborate (e : env) (ds : list directive) : option env :=
  match ds with
  | [] => Some e
  | d :: r =>
      match d with
      | PragmaOnce => elaborate e r
      | Include h =>
          match system_header h with
          | Some he => elaborate (he ++ e)%list r
          | None => None
          end
      | IfNDef _ _ => None
      | TypedefStruct ms name | StructDef name ms =>
          match declare e name ms with
          | Some e' => elaborate e' r
          | None => None
          end
      | StaticAssert c =>
          if eval_cond e c then elaborate e r else None
      end
  end.

Definition compile (ctx : context) (f : list directive) : option env :=
  elaborate (builtin_types ctx) (preprocess_file (predefined ctx) f).

(** The type a name denotes after the header has been compiled. *)
Definition type_in (ctx : context) (name : string) : option ctype :=
  match compile ctx ShaderTypes_h with
  | Some e => lookup name e
  | None => None
  end.

Definition sizeof_in (ctx : context) (name : string) : option nat :=
  option_map sizeof (type_in ctx name).

Definition offsetof_in (ctx : context) (name fld : string) : option nat :=
  match type_in ctx name with
  | Some t => offsetof t fld
  | None => None
  end.

(** ** Scalar leaves of a type *)

(** A leaf is a scalar of the record: the path of member names that reaches
    it, its byte offset and its kind. *)
Definition leaf : Type := (list string * nat * scalar)%type.

Definition leaf_path (l : leaf) : list string := fst (fst l).
Definition leaf_offset (l : leaf) : nat := snd (fst l).
Definition leaf_kind (l : leaf) : scalar := snd l.

Definition component_name (i : nat) : string :=
  nth i ["x"; "y"; "z"; "w"] "?".

Fixpoint leaves (t : ctype) (base : nat) (path : list string) : list leaf :=
  match t with
  | Tfloat => [(path, base, F32)]
  | Tuint => [(path, base, U32)]
  | Tpacked n | Tsimd n =>
      map (fun i => ((path ++ [component_name i])%list,
                     base + scalar_size * i, F32))
          (seq 0 n)
  | Tstruct fs =>
      (fix go (fs : list (string * ctype)) (off : nat) : list leaf :=
         match fs with
         | [] => []
         | (n, ft) :: r =>
             let o := align_up off (alignof ft) in
             (leaves ft (base + o) (path ++ [n]) ++ go r (o + sizeof ft))%list
         end) fs 0
  end.

Definition scalars (t : ctype) : list leaf := leaves t 0 [].

(** The byte at offset [i] belongs to one of the leaves. *)
Definition covered (ls : list leaf) (i : nat) : bool :=
  existsb (fun l => (leaf_offset l <=? i) && (i <? leaf_offset l + scalar_size))%nat ls.

(** Offsets of the bytes of a type that belong to no scalar. *)
Definition padding_bytes (t : ctype) : list nat :=
  filter (fun i => negb (covered (scalars t) i)) (seq 0 (sizeof t)).

Definition path_eqb (p q : list string) : bool :=
  if list_eq_dec string_dec p q then true else false.

Definition scalar_offset (t : ctype) (path : list string) : option nat :=
  option_map leaf_offset (find (fun l => path_eqb path (leaf_path l)) (scalars t)).

(** The byte-level shape of a type: offset and kind of every scalar, in
    storage order, and the total size. *)
Definition byte_layout (t : ctype) : list (nat * scalar) * nat :=
  (map (fun l => (leaf_offset l, leaf_kind l)) (scalars t), sizeof t).

(** ** Words and bytes *)

Local Open Scope list_scope.
Local Open Scope Z_scope.

(** A 32-bit storage unit, as the unsigned integer its bits denote.  A
    [float] member is held as its IEEE 754 binary32 bit pattern: a store or
    a load of a member moves the 32 bits and nothing else. *)
Definition word32 : Type := Z.

Definition is_word32 (w : Z) : Prop := 0 <= w < 2 ^ 32.

Definition wrap32 (w : Z) : Z := w mod 2 ^ 32.

Definition byte_of_Z (z : Z) : byte :=
  match Byte.of_N (Z.to_N (Z.land z 255)) with
  | Some b => b
  | None => x00
  end.

Definition Z_of_byte (b : byte) : Z := Z.of_N (Byte.to_N b).

(** Byte [i] of a word, counted from the least significant one. *)
Definition byte_at (w : Z) (i : nat) : byte :=
  byte_of_Z (Z.shiftr w (8 * Z.of_nat i)).

Inductive endianness : Type := LittleEndian | BigEndian.

Definition le_bytes (w : Z) : list byte :=
  [byte_at w 0; byte_at w 1; byte_at w 2; byte_at w 3].

Definition le_value (bs : list byte) : Z :=
  fold_right (fun b acc => Z.lor (Z_of_byte b) (Z.shiftl acc 8)) 0 bs.

Definition encode_word (e : endianness) (w : Z) : list byte :=
  match e with
  | LittleEndian => le_bytes w
  | BigEndian => rev (le_bytes w)
  end.

Definition decode_word (e : endianness) (bs : list byte) : Z :=
  match e with
  | LittleEndian => le_value bs
  | BigEndian => le_value (rev bs)
  end.

(** ** Memory *)

Definition bytes : Type := list byte.

Local Open Scope nat_scope.

Definition store_bytes (off : nat) (bs : list byte) (buf : bytes) : bytes :=
  firstn off buf ++ bs ++ skipn (off + List.length bs) buf.

Definition load_bytes (off n : nat) (buf : bytes) : list byte :=
  firstn n (skipn off buf).

(** Accesses outside the object fail. *)
Definition store_word (e : endianness) (off : nat) (w : Z) (buf : bytes)
  : option bytes :=
  if off + scalar_size <=? List.length buf
  then Some (store_bytes off (encode_word e w) buf)
  else None.

Definition load_word (e : endianness) (off : nat) (buf : bytes) : option Z :=
  if off + scalar_size <=? List.length buf
  then Some (decode_word e (load_bytes off scalar_size buf))
  else None.

(** ** Member access through a layout *)

Definition bind {A B : Type} (m : option A) (k : A -> option B) : option B :=
  match m with
  | Some a => k a
  | None => None
  end.

Notation "x <- m ;; k" := (bind m (fun x => k))
  (at level 61, m at next level, right associativity).

(** Stores the given members, in order, into an object of type [t]. *)
Fixpoint store_members (e : endianness) (t : ctype)
         (ms : list (list string * Z)) (buf : bytes) : option bytes :=
  match ms with
  | [] => Some buf
  | (p, w) :: r =>
      o <- scalar_offset t p ;;
      buf' <- store_word e o w buf ;;
      store_members e t r buf'
  end.

Definition load_member (e : endianness) (t : ctype) (p : list string)
           (buf : bytes) : option Z :=
  o <- scalar_offset t p ;;
  load_word e o buf.

Definition zeroed (t : ctype) : bytes := repeat x00 (sizeof t).

(** ** The records as values *)

Record packed_float3 : Type :=
  { x : word32; y : word32; z : word32 }.

Record simd_packed_float2 : Type :=
  { x2 : word32; y2 : word32 }.

Record MeshVertex : Type :=
  { position : packed_float3;
    normal : packed_float3;
    uv : simd_packed_float2 }.

Record WaveDescriptor : Type :=
  { segmentCount : word32;
    time : word32;
    waveDensity : word32;
    amplitude : word32 }.

Definition MeshVertex_members (v : MeshVertex) : list (list string * Z) :=
  [ (["position"; "x"], x (position v));
    (["position"; "y"], y (position v));
    (["position"; "z"], z (position v));
    (["normal"; "x"], x (normal v));
    (["normal"; "y"], y (normal v));
    (["normal"; "z"], z (normal v));
    (["uv"; "x"], x2 (uv v));
    (["uv"; "y"], y2 (uv v)) ]%string.

Definition WaveDescriptor_members (d : WaveDescriptor)
  : list (list string * Z) :=
  [ (["segmentCount"], segmentCount d);
    (["time"], time d);
    (["waveDensity"], waveDensity d);
    (["amplitude"], amplitude d) ]%string.

(** Writing a record into a caller-supplied object of the record's size,
    with the layout of the context [ctx]. *)
Definition write_MeshVertex_into (e : endianness) (ctx : context)
           (v : MeshVertex) (buf : bytes) : option bytes :=
  t <- type_in ctx "MeshVertex" ;;
  if List.length buf =? sizeof t
  then store_members e t (MeshVertex_members v) buf
  else None.

Definition write_MeshVertex (e : endianness) (ctx : context) (v : MeshVertex)
  : option bytes :=
  t <- type_in ctx "MeshVertex" ;;
  write_MeshVertex_into e ctx v (zeroed t).

Definition read_MeshVertex (e : endianness) (ctx : context) (buf : bytes)
  : option MeshVertex :=
  t <- type_in ctx "MeshVertex" ;;
  px <- load_member e t ["position"; "x"]%string buf ;;
  py <- load_member e t ["position"; "y"]%string buf ;;
  pz <- load_member e t ["position"; "z"]%string buf ;;
  nx <- load_member e t ["normal"; "x"]%string buf ;;
  ny <- load_member e t ["normal"; "y"]%string buf ;;
  nz <- load_member e t ["normal"; "z"]%string buf ;;
  u <- load_member e t ["uv"; "x"]%string buf ;;
  v <- load_member e t ["uv"; "y"]%string buf ;;
  Some {| position := {| x := px; y := py; z := pz |};
          normal := {| x := nx; y := ny; z := nz |};
          uv := {| x2 := u; y2 := v |} |}.

Definition write_WaveDescriptor_into (e : endianness) (ctx : context)
           (d : WaveDescriptor) (buf : bytes) : option bytes :=
  t <- type_in ctx "WaveDescriptor" ;;
  if List.length buf =? sizeof t
  then store_members e t (WaveDescriptor_members d) buf
  else None.

Definition write_WaveDescriptor (e : endianness) (ctx : context)
           (d : WaveDescriptor) : option bytes :=
  t <- type_in ctx "WaveDescriptor" ;;
  write_WaveDescriptor_into e ctx d (zeroed t).

Definition read_WaveDescriptor (e : endianness) (ctx : context) (buf : bytes)
  : option WaveDescriptor :=
  t <- type_in ctx "WaveDescriptor" ;;
  n <- load_member e t ["segmentCount"]%string buf ;;
  tm <- load_member e t ["time"]%string buf ;;
  wd <- load_member e t ["waveDensity"]%string buf ;;
  a <- load_member e t ["amplitude"]%string buf ;;
  Some {| segmentCount := n; time := tm; waveDensity := wd; amplitude := a |}.

Local Open Scope Z_scope.

(** ** Floats as bit patterns *)

(** The value an IEEE 754 binary32 bit pattern denotes. *)
Definition float_of_bits (b : Z) : spec_float :=
  let s := Z.testbit b 31 in
  let ex := Z.land (Z.shiftr b 23) 255 in
  let m := Z.land b (2 ^ 23 - 1) in
  if ex =? 0 then
    match m with
    | Zpos p => S754_finite s p (-149)
    | _ => S754_zero s
    end
  else if ex =? 255 then
    if m =? 0 then S754_infinity s else S754_nan
  else
    match Z.lor m (2 ^ 23) with
    | Zpos p => S754_finite s p (ex - 150)
    | _ => S754_nan
    end.

Definition is_finite (f : spec_float) : bool :=
  match f with
  | S754_zero _ | S754_finite _ _ _ => true
  | S754_infinity _ | S754_nan => false
  end.

Definition float_zero : word32 := 0x00000000.
Definition float_one : word32 := 0x3F800000.
Definition float_neg_zero : word32 := 0x80000000.
Definition float_pos_inf : word32 := 0x7F800000.
Definition float_neg_inf : word32 := 0xFF800000.
Definition float_quiet_nan : word32 := 0x7FC00000.
Definition float_signalling_nan : word32 := 0x7F800001.

Definition valid_float (b : Z) : Prop :=
  is_word32 b /\ is_finite (float_of_bits b) = true.

(** ** Derived notions used in the statements *)

Local Open Scope nat_scope.

Definition wrap_MeshVertex (v : MeshVertex) : MeshVertex :=
  {| position := {| x := wrap32 (x (position v));
                    y := wrap32 (y (position v));
                    z := wrap32 (z (position v)) |};
     normal := {| x := wrap32 (x (normal v));
                  y := wrap32 (y (normal v));
                  z := wrap32 (z (normal v)) |};
     uv := {| x2 := wrap32 (x2 (uv v)); y2 := wrap32 (y2 (uv v)) |} |}.

Definition wrap_WaveDescriptor (d : WaveDescriptor) : WaveDescriptor :=
  {| segmentCount := wrap32 (segmentCount d);
     time := wrap32 (time d);
     waveDensity := wrap32 (waveDensity d);
     amplitude := wrap32 (amplitude d) |}.

(** Every member is a 32-bit pattern. *)
Definition wf_MeshVertex (v : MeshVertex) : Prop :=
  Forall is_word32 (map snd (MeshVertex_members v)).

Definition wf_WaveDescriptor (d : WaveDescriptor) : Prop :=
  Forall is_word32 (map snd (WaveDescriptor_members d)).

(** The members hold valid values: finite floats, and any 32-bit count. *)
Definition valid_MeshVertex (v : MeshVertex) : Prop :=
  Forall valid_float (map snd (MeshVertex_members v)).

Definition valid_WaveDescriptor (d : WaveDescriptor) : Prop :=
  is_word32 (segmentCount d) /\
  valid_float (time d) /\ valid_float (waveDensity d) /\
  valid_float (amplitude d).

(** Number of scalars stored under the top-level member [m]. *)
Definition components (t : ctype) (m : string) : nat :=
  List.length
    (filter (fun l => match leaf_path l with
                      | h :: _ => String.eqb h m
                      | [] => false
                      end) (scalars t)).

(** Name, offset and size of every top-level member, in storage order. *)
Definition member_extents (t : ctype) : list (string * nat * nat) :=
  match t with
  | Tstruct fs => combine (member_offsets fs 0) (map (fun f => sizeof (snd f)) fs)
  | _ => []
  end.

(** The placement that wastes no byte: every member right after the
    previous one. *)
Fixpoint packed_offsets (fs : list (string * ctype)) (off : nat)
  : list (string * nat) :=
  match fs with
  | [] => []
  | (n, ft) :: r => (n, off) :: packed_offsets r (off + sizeof ft)
  end.

(** A member that the layout rule never pads before or after, among
    members of its kind: aligned like a scalar, a whole number of scalars
    long. *)
Definition scalar_shaped (f : string * ctype) : Prop :=
  alignof (snd f) = scalar_size /\ sizeof (snd f) mod scalar_size = 0.

(** The static assertions of a header, at any nesting depth. *)
Fixpoint assertions_of (d : directive) : list layout_cond :=
  match d with
  | StaticAssert c => [c]
  | IfNDef _ body => flat_map assertions_of body
  | _ => []
  end.

Definition static_assertions (f : list directive) : list layout_cond :=
  flat_map assertions_of f.

(** A header validates its layout by construction when it carries at least
    one compile-time size or offset assertion. *)
Definition validated_by_construction (f : list directive) : Prop :=
  exists c, In c (static_assertions f).

(** The vertex with position (0,0,0), normal (0,1,0) and uv (0,0). *)
Definition boundary_vertex : MeshVertex :=
  {| position := {| x := float_zero; y := float_zero; z := float_zero |};
     normal := {| x := float_zero; y := float_one; z := float_zero |};
     uv := {| x2 := float_zero; y2 := float_zero |} |}.

Local Open Scope Z_scope.

(** Sample records: ordinary values, values that are not finite numbers,
    and a descriptor with a zero count. *)
Definition sample_vertex : MeshVertex :=
  {| position := {| x := 0x3F800000; y := 0x40000000; z := 0xC0400000 |};
     normal := {| x := float_zero; y := float_one; z := float_zero |};
     uv := {| x2 := 0x3F000000; y2 := 0x3E800000 |} |}.

Definition sample_descriptor : WaveDescriptor :=
  {| segmentCount := 64; time := 0x3FC00000;
     waveDensity := 0x40490FDB; amplitude := 0x3DCCCCCD |}.

Definition special_vertex : MeshVertex :=
  {| position := {| x := float_quiet_nan; y := float_pos_inf;
                    z := float_neg_inf |};
     normal := {| x := float_neg_zero; y := float_signalling_nan;
                  z := 0xFFFFFFFF |};
     uv := {| x2 := 1; y2 := 0x7FFFFFFF |} |}.

Definition special_descriptor : WaveDescriptor :=
  {| segmentCount := 2 ^ 32 - 1; time := float_quiet_nan;
     waveDensity := float_neg_inf; amplitude := float_neg_zero |}.

Definition zero_count_descriptor : WaveDescriptor :=
  {| segmentCount := 0; time := 0x3FC00000;
     waveDensity := 0x40490FDB; amplitude := 0x3DCCCCCD |}.

(** The size and offset assertions one could append to the header. *)
Definition layout_assertions : list directive :=
  [ StaticAssert (SizeofIs "MeshVertex" 32);
    StaticAssert (OffsetofIs "MeshVertex" "position" 0);
    StaticAssert (OffsetofIs "MeshVertex" "normal" 12);
    StaticAssert (OffsetofIs "MeshVertex" "uv" 24);
    StaticAssert (SizeofIs "WaveDescriptor" 16);
    StaticAssert (OffsetofIs "WaveDescriptor" "segmentCount" 0);
    StaticAssert (OffsetofIs "WaveDescriptor" "time" 4);
    StaticAssert (OffsetofIs "WaveDescriptor" "waveDensity" 8);
    StaticAssert (OffsetofIs "WaveDescriptor" "amplitude" 12) ]%nat.

(** ** Translation units that include the header *)

Local Open Scope nat_scope.

Definition is_some {A : Type} (o : option A) : bool :=
  match o with
  | Some _ => true
  | None => false
  end.

(** A file is included at most once when one of its top-level lines, after
    preprocessing, is [#pragma once]. *)
Definition has_pragma_once (ds : list directive) : bool :=
  existsb (fun d => match d with PragmaOnce => true | _ => false end) ds.

(** The lines a translation unit sees when it includes the named files in
    order.  [files] gives the content of a file, [once] the files already
    seen that asked to be included once; a file that cannot be found is an
    error. *)
Fixpoint expand_includes (files : string -> option (list directive))
         (macros : list string) (once : list string) (incs : list string)
  : option (list directive) :=
  match incs with
  | [] => Some []
  | n :: r =>
      if existsb (String.eqb n) once
      then expand_includes files macros once r
      else
        body <- option_map (preprocess_file macros) (files n) ;;
        rest <- expand_includes files macros
                  (if has_pragma_once body then n :: once else once) r ;;
        Some (body ++ rest)
  end.

Definition compile_unit (files : string -> option (list directive))
           (ctx : context) (incs : list string) : option env :=
  ds <- expand_includes files (predefined ctx) [] incs ;;
  elaborate (builtin_types ctx) ds.

(** The repository's header under its file name. *)
Definition repository_files (n : string) : option (list directive) :=
  if String.eqb n "ShaderTypes.h" then Some ShaderTypes_h else None.

(** ** Records made of scalars and packed vectors only *)


(** The member loops of [alignof], [sizeof] and [leaves], by name. *)
Fixpoint members_align (fs : list (string * ctype)) : nat :=
  match fs with
  | [] => 1
  | (_, ft) :: r => Nat.max (alignof ft) (members_align r)
  end.




(** Sixteen bytes that come from no record: 0, 1, ..., 15. *)
Definition sample_bytes : bytes :=
  [x00; x01; x02; x03; x04; x05; x06; x07;
   x08; x09; x0a; x0b; x0c; x0d; x0e; x0f].

(** The sample descriptor with a count that does not fit 32 bits. *)
Definition overflowing_descriptor : WaveDescriptor :=
  {| segmentCount := (64 + 2 ^ 32)%Z; time := time sample_descriptor;
     waveDensity := waveDensity sample_descriptor;
     amplitude := amplitude sample_descriptor |}.

(** The scalars lie inside an object of [size] bytes and two of them with
    different paths share no byte. *)
Definition leaves_disjoint (ls : list leaf) (size : nat) : bool :=
  forallb
    (fun l1 =>
       (leaf_offset l1 + scalar_size <=? size)
       && forallb
            (fun l2 =>
               path_eqb (leaf_path l1) (leaf_path l2)
               || (leaf_offset l1 + scalar_size <=? leaf_offset l2)
               || (leaf_offset l2 + scalar_size <=? leaf_offset l1))
            ls)
    ls.

(** The paths of the scalars of a type, in storage order. *)
Definition member_paths (t : ctype) : list (list string) :=
  map leaf_path (scalars t).

(** Assignment to the member a path names; [None] when the record has no
    such member. *)
Definition set_packed_float3_member (c : string) (w : Z) (f : packed_float3)
  : option packed_float3 :=
  if String.eqb c "x" then Some {| x := w; y := y f; z := z f |}
  else if String.eqb c "y" then Some {| x := x f; y := w; z := z f |}
  else if String.eqb c "z" then Some {| x := x f; y := y f; z := w |}
  else None.

Definition set_simd_packed_float2_member (c : string) (w : Z)
           (f : simd_packed_float2) : option simd_packed_float2 :=
  if String.eqb c "x" then Some {| x2 := w; y2 := y2 f |}
  else if String.eqb c "y" then Some {| x2 := x2 f; y2 := w |}
  else None.

Definition set_MeshVertex_member (p : list string) (w : Z) (v : MeshVertex)
  : option MeshVertex :=
  match p with
  | [m; c] =>
      if String.eqb m "position" then
        f <- set_packed_float3_member c w (position v) ;;
        Some {| position := f; normal := normal v; uv := uv v |}
      else if String.eqb m "normal" then
        f <- set_packed_float3_member c w (normal v) ;;
        Some {| position := position v; normal := f; uv := uv v |}
      else if String.eqb m "uv" then
        f <- set_simd_packed_float2_member c w (uv v) ;;
        Some {| position := position v; normal := normal v; uv := f |}
      else None
  | _ => None
  end.

Definition set_WaveDescriptor_member (p : list string) (w : Z)
           (d : WaveDescriptor) : option WaveDescriptor :=
  match p with
  | [m] =>
      if String.eqb m "segmentCount" then
        Some {| segmentCount := w; time := time d;
                waveDensity := waveDensity d; amplitude := amplitude d |}
      else if String.eqb m "time" then
        Some {| segmentCount := segmentCount d; time := w;
                waveDensity := waveDensity d; amplitude := amplitude d |}
      else if String.eqb m "waveDensity" then
        Some {| segmentCount := segmentCount d; time := time d;
                waveDensity := w; amplitude := amplitude d |}
      else if String.eqb m "amplitude" then
        Some {| segmentCount := segmentCount d; time := time d;
                waveDensity := waveDensity d; amplitude := w |}
      else None
  | _ => None
  end.

(** The type of [WaveDescriptor], the same in both contexts. *)
Definition WaveDescriptor_type : ctype :=
  Tstruct [("segmentCount", Tuint); ("time", Tfloat);
           ("waveDensity", Tfloat); ("amplitude", Tfloat)].

(** Three vertices and the bytes the host writes for each. *)
Definition sample_vertices : list MeshVertex :=
  [sample_vertex; boundary_vertex; special_vertex].

Definition sample_vertex_bytes : list bytes :=
  map (fun v => match write_MeshVertex LittleEndian Host v with
                | Some b => b
                | None => []
                end) sample_vertices.



Local Open Scope Z_scope.

(** * Properties *)

(** ** Bytes and words *)

Lemma Z_of_byte_of_Z (n : Z) : Z_of_byte (byte_of_Z n) = n mod 256.
Proof.
  unfold Z_of_byte, byte_of_Z.
  change 255 with (Z.ones 8).
  rewrite Z.land_ones by lia.
  change (2 ^ 8) with 256.
  assert (Hr : 0 <= n mod 256 < 256) by (apply Z.mod_pos_bound; lia).
  destruct (Byte.of_N (Z.to_N (n mod 256))) as [b|] eqn:Hb.
  - apply Byte.to_of_N in Hb. rewrite Hb. lia.
  - apply Byte.of_N_None_iff in Hb. lia.
Qed.

Lemma Z_of_byte_at (w : Z) (i : nat) :
  Z_of_byte (byte_at w i) = (w / 2 ^ (8 * Z.of_nat i)) mod 256.
Proof.
  unfold byte_at. rewrite Z_of_byte_of_Z.
  rewrite Z.shiftr_div_pow2 by lia. reflexivity.
Qed.

Lemma land_low_shiftl (a b : Z) :
  0 <= a < 256 -> Z.land a (Z.shiftl b 8) = 0.
Proof.
  intros Ha. apply Z.bits_inj'. intros n Hn.
  rewrite Z.land_spec, Z.bits_0.
  destruct (Z.ltb_spec n 8) as [Hlt|Hge].
  - rewrite Z.shiftl_spec_low by lia. apply andb_false_r.
  - replace a with (a mod 2 ^ 8) by (apply Z.mod_small; simpl; lia).
    rewrite Z.mod_pow2_bits_high by lia. reflexivity.
Qed.

Lemma lor_shiftl_add (a b : Z) :
  0 <= a < 256 -> Z.lor a (Z.shiftl b 8) = a + 256 * b.
Proof.
  intros Ha.
  pose proof (Z.add_lor_land a (Z.shiftl b 8)) as H.
  rewrite land_low_shiftl in H by assumption.
  rewrite Z.shiftl_mul_pow2 in * by lia.
  change (2 ^ 8) with 256 in *. lia.
Qed.

Lemma le_value_cons (b : byte) (bs : list byte) :
  le_value (b :: bs) = Z_of_byte b + 256 * le_value bs.
Proof.
  unfold le_value; simpl. apply lor_shiftl_add.
  unfold Z_of_byte. pose proof (Byte.to_N_bounded b). lia.
Qed.

Lemma le_value_le_bytes (w : Z) : le_value (le_bytes w) = wrap32 w.
Proof.
  unfold le_bytes, wrap32.
  rewrite !le_value_cons, !Z_of_byte_at.
  change (le_value []) with 0.
  change (2 ^ (8 * Z.of_nat 0)) with 1.
  change (2 ^ (8 * Z.of_nat 1)) with 256.
  change (2 ^ (8 * Z.of_nat 2)) with 65536.
  change (2 ^ (8 * Z.of_nat 3)) with 16777216.
  change (2 ^ 32) with 4294967296.
  Z.div_mod_to_equations. lia.
Qed.

Lemma decode_encode_word (e : endianness) (w : Z) :
  decode_word e (encode_word e w) = wrap32 w.
Proof.
  destruct e; unfold decode_word, encode_word.
  - apply le_value_le_bytes.
  - rewrite rev_involutive. apply le_value_le_bytes.
Qed.

Lemma wrap32_word (w : Z) : is_word32 w -> wrap32 w = w.
Proof. intros H. apply Z.mod_small. exact H. Qed.

Lemma wrap32_is_word32 (w : Z) : is_word32 (wrap32 w).
Proof. apply Z.mod_pos_bound. reflexivity. Qed.

Lemma length_encode_word (e : endianness) (w : Z) :
  List.length (encode_word e w) = scalar_size.
Proof. destruct e; reflexivity. Qed.

(** ** Memory *)

Local Open Scope nat_scope.

Lemma length_store_bytes (off : nat) (bs : list byte) (buf : bytes) :
  off + List.length bs <= List.length buf ->
  List.length (store_bytes off bs buf) = List.length buf.
Proof.
  intros H. unfold store_bytes.
  rewrite !length_app, length_firstn, length_skipn. lia.
Qed.

Lemma load_store_same (off : nat) (bs : list byte) (buf : bytes) :
  off + List.length bs <= List.length buf ->
  load_bytes off (List.length bs) (store_bytes off bs buf) = bs.
Proof.
  intros H. unfold load_bytes, store_bytes.
  assert (Hf : List.length (firstn off buf) = off)
    by (rewrite length_firstn; lia).
  rewrite skipn_app, Hf, Nat.sub_diag.
  rewrite (skipn_all2 (firstn off buf)) by lia.
  simpl. rewrite firstn_app, Nat.sub_diag, firstn_all. simpl.
  apply app_nil_r.
Qed.

(** A store leaves the bytes before it and the bytes after it alone. *)
Lemma load_store_before (off off' n : nat) (bs : list byte) (buf : bytes) :
  off' + n <= off ->
  off + List.length bs <= List.length buf ->
  load_bytes off' n (store_bytes off bs buf) = load_bytes off' n buf.
Proof.
  intros Hd H. unfold load_bytes, store_bytes.
  assert (Hf : List.length (firstn off buf) = off)
    by (rewrite length_firstn; lia).
  rewrite skipn_app, Hf.
  replace (off' - off) with 0 by lia. simpl.
  rewrite firstn_app, length_skipn, Hf.
  replace (n - (off - off')) with 0 by lia. simpl.
  rewrite app_nil_r, skipn_firstn_comm, firstn_firstn.
  replace (Nat.min n (off - off')) with n by lia.
  reflexivity.
Qed.

Lemma load_store_after (off off' n : nat) (bs : list byte) (buf : bytes) :
  off + List.length bs <= off' ->
  off + List.length bs <= List.length buf ->
  load_bytes off' n (store_bytes off bs buf) = load_bytes off' n buf.
Proof.
  intros Hd H. unfold load_bytes, store_bytes.
  assert (Hf : List.length (firstn off buf) = off)
    by (rewrite length_firstn; lia).
  rewrite skipn_app, Hf.
  rewrite (skipn_all2 (firstn off buf)) by lia. simpl.
  rewrite skipn_app.
  rewrite (skipn_all2 bs) by lia. simpl.
  rewrite skipn_skipn. f_equal. f_equal. lia.
Qed.

(** What a store of a word does to the object: it succeeds inside the
    object, keeps its size, a load at the same offset gives the word back
    (wrapped to 32 bits) and a load of a word that does not overlap it is
    unchanged. *)
Lemma store_word_spec (e : endianness) (off : nat) (w : Z) (buf : bytes) :
  off + scalar_size <= List.length buf ->
  exists buf',
    store_word e off w buf = Some buf' /\
    List.length buf' = List.length buf /\
    load_word e off buf' = Some (wrap32 w) /\
    (forall off', off' + scalar_size <= off \/ off + scalar_size <= off' ->
                  load_word e off' buf' = load_word e off' buf).
Proof.
  intros H.
  pose proof (length_encode_word e w) as Hl.
  assert (Hlen : List.length (store_bytes off (encode_word e w) buf)
                 = List.length buf)
    by (apply length_store_bytes; lia).
  exists (store_bytes off (encode_word e w) buf).
  unfold store_word, load_word. rewrite Hlen.
  destruct (Nat.leb_spec (off + scalar_size) (List.length buf)); [|lia].
  split; [reflexivity|]. split; [reflexivity|]. split.
  - rewrite <- Hl. rewrite load_store_same by lia.
    rewrite decode_encode_word. reflexivity.
  - intros off' Hd.
    destruct (off' + scalar_size <=? List.length buf); [|reflexivity].
    destruct Hd.
    + rewrite load_store_before by lia. reflexivity.
    + rewrite load_store_after by lia. reflexivity.
Qed.

(** ** The layout of the two records, in both contexts *)

Local Open Scope string_scope.
Local Open Scope list_scope.

(** The header compiles in both contexts. *)
Lemma header_compiles (ctx : context) :
  exists e, compile ctx ShaderTypes_h = Some e.
Proof. destruct ctx; eexists; reflexivity. Qed.

Lemma MeshVertex_layout (ctx : context) :
  exists t,
    type_in ctx "MeshVertex" = Some t /\
    sizeof t = 32 /\
    scalar_offset t ["position"; "x"] = Some 0 /\
    scalar_offset t ["position"; "y"] = Some 4 /\
    scalar_offset t ["position"; "z"] = Some 8 /\
    scalar_offset t ["normal"; "x"] = Some 12 /\
    scalar_offset t ["normal"; "y"] = Some 16 /\
    scalar_offset t ["normal"; "z"] = Some 20 /\
    scalar_offset t ["uv"; "x"] = Some 24 /\
    scalar_offset t ["uv"; "y"] = Some 28.
Proof. destruct ctx; eexists; repeat split; vm_compute; reflexivity. Qed.

Lemma WaveDescriptor_layout (ctx : context) :
  exists t,
    type_in ctx "WaveDescriptor" = Some t /\
    sizeof t = 16 /\
    scalar_offset t ["segmentCount"] = Some 0 /\
    scalar_offset t ["time"] = Some 4 /\
    scalar_offset t ["waveDensity"] = Some 8 /\
    scalar_offset t ["amplitude"] = Some 12.
Proof. destruct ctx; eexists; repeat split; vm_compute; reflexivity. Qed.

(** ** Writing and reading back *)

(** Performs the next store of the goal and records what it does. *)
Ltac step_store :=
  match goal with
  | Hl : List.length ?b = _ |- context [store_word ?e ?o ?w ?b] =>
      let b' := fresh "b" in
      let S := fresh "S" in
      let L := fresh "L" in
      let R := fresh "R" in
      let F := fresh "F" in
      destruct (store_word_spec e o w b) as (b' & S & L & R & F);
      [ unfold scalar_size; lia
      | rewrite S; cbn [bind]; rewrite Hl in L; clear S ]
  end.

(** Resolves the next load of the goal through the recorded stores. *)
Ltac step_load :=
  match goal with
  | R : load_word ?e ?o ?b = Some _ |- context [load_word ?e ?o ?b] =>
      rewrite R; cbn [bind]
  | F : forall o' : nat, _ |- context [load_word ?e ?o ?b] =>
      rewrite (F o) by (unfold scalar_size; lia)
  end.

Lemma MeshVertex_write_read_into
      (e : endianness) (c1 c2 : context) (v : MeshVertex) (buf0 : bytes) :
  List.length buf0 = 32%nat ->
  exists buf,
    write_MeshVertex_into e c1 v buf0 = Some buf /\
    List.length buf = 32%nat /\
    read_MeshVertex e c2 buf = Some (wrap_MeshVertex v).
Proof.
  intros Hlen.
  destruct (MeshVertex_layout c1)
    as (t1 & Ht1 & Hs1 & A1 & A2 & A3 & A4 & A5 & A6 & A7 & A8).
  destruct (MeshVertex_layout c2)
    as (t2 & Ht2 & Hs2 & B1 & B2 & B3 & B4 & B5 & B6 & B7 & B8).
  unfold write_MeshVertex_into, read_MeshVertex.
  rewrite Ht1, Ht2. cbn [bind]. rewrite Hlen, Hs1. cbn [Nat.eqb].
  unfold MeshVertex_members, store_members, load_member.
  rewrite A1, A2, A3, A4, A5, A6, A7, A8, B1, B2, B3, B4, B5, B6, B7, B8.
  cbn [bind].
  do 8 step_store.
  eexists. split; [reflexivity|]. split; [assumption|].
  repeat step_load.
  reflexivity.
Qed.

Lemma WaveDescriptor_write_read_into
      (e : endianness) (c1 c2 : context) (d : WaveDescriptor) (buf0 : bytes) :
  List.length buf0 = 16%nat ->
  exists buf,
    write_WaveDescriptor_into e c1 d buf0 = Some buf /\
    List.length buf = 16%nat /\
    read_WaveDescriptor e c2 buf = Some (wrap_WaveDescriptor d).
Proof.
  intros Hlen.
  destruct (WaveDescriptor_layout c1) as (t1 & Ht1 & Hs1 & A1 & A2 & A3 & A4).
  destruct (WaveDescriptor_layout c2) as (t2 & Ht2 & Hs2 & B1 & B2 & B3 & B4).
  unfold write_WaveDescriptor_into, read_WaveDescriptor.
  rewrite Ht1, Ht2. cbn [bind]. rewrite Hlen, Hs1. cbn [Nat.eqb].
  unfold WaveDescriptor_members, store_members, load_member.
  rewrite A1, A2, A3, A4, B1, B2, B3, B4.
  cbn [bind].
  do 4 step_store.
  eexists. split; [reflexivity|]. split; [assumption|].
  repeat step_load.
  reflexivity.
Qed.

Lemma length_zeroed (t : ctype) : List.length (zeroed t) = sizeof t.
Proof. apply repeat_length. Qed.

(** A record written with the layout of one context and read with the
    layout of another comes back with every member wrapped to 32 bits. *)
Lemma MeshVertex_write_read
      (e : endianness) (c1 c2 : context) (v : MeshVertex) :
  exists buf,
    write_MeshVertex e c1 v = Some buf /\
    List.length buf = 32%nat /\
    read_MeshVertex e c2 buf = Some (wrap_MeshVertex v).
Proof.
  unfold write_MeshVertex.
  destruct (MeshVertex_layout c1) as (t1 & Ht1 & Hs1 & _).
  rewrite Ht1. cbn [bind].
  apply MeshVertex_write_read_into.
  rewrite length_zeroed. exact Hs1.
Qed.

Lemma WaveDescriptor_write_read
      (e : endianness) (c1 c2 : context) (d : WaveDescriptor) :
  exists buf,
    write_WaveDescriptor e c1 d = Some buf /\
    List.length buf = 16%nat /\
    read_WaveDescriptor e c2 buf = Some (wrap_WaveDescriptor d).
Proof.
  unfold write_WaveDescriptor.
  destruct (WaveDescriptor_layout c1) as (t1 & Ht1 & Hs1 & _).
  rewrite Ht1. cbn [bind].
  apply WaveDescriptor_write_read_into.
  rewrite length_zeroed. exact Hs1.
Qed.

Lemma wrap_MeshVertex_wf (v : MeshVertex) :
  wf_MeshVertex v -> wrap_MeshVertex v = v.
Proof.
  destruct v as [[px py pz] [nx ny nz] [u0 u1]].
  unfold wf_MeshVertex, wrap_MeshVertex; cbn.
  intros H.
  repeat match goal with
         | H : Forall _ (_ :: _) |- _ =>
             let Hw := fresh "Hw" in
             apply Forall_cons_iff in H; destruct H as [Hw H];
             apply wrap32_word in Hw; rewrite Hw
         end.
  reflexivity.
Qed.

Lemma wrap_WaveDescriptor_wf (d : WaveDescriptor) :
  wf_WaveDescriptor d -> wrap_WaveDescriptor d = d.
Proof.
  destruct d as [n t w a].
  unfold wf_WaveDescriptor, wrap_WaveDescriptor; cbn.
  intros H.
  repeat match goal with
         | H : Forall _ (_ :: _) |- _ =>
             let Hw := fresh "Hw" in
             apply Forall_cons_iff in H; destruct H as [Hw H];
             apply wrap32_word in Hw; rewrite Hw
         end.
  reflexivity.
Qed.

Lemma valid_MeshVertex_wf (v : MeshVertex) :
  valid_MeshVertex v -> wf_MeshVertex v.
Proof.
  unfold valid_MeshVertex, wf_MeshVertex.
  apply Forall_impl. intros b [Hb _]. exact Hb.
Qed.

Lemma valid_WaveDescriptor_wf (d : WaveDescriptor) :
  valid_WaveDescriptor d -> wf_WaveDescriptor d.
Proof.
  intros (Hn & [Ht _] & [Hw _] & [Ha _]).
  unfold wf_WaveDescriptor; cbn. repeat (constructor; try assumption).
Qed.

Lemma MeshVertex_roundtrip_wf
      (e : endianness) (c1 c2 : context) (v : MeshVertex) :
  wf_MeshVertex v ->
  exists buf,
    write_MeshVertex e c1 v = Some buf /\
    read_MeshVertex e c2 buf = Some v.
Proof.
  intros Hv.
  destruct (MeshVertex_write_read e c1 c2 v) as (buf & Hw & _ & Hr).
  exists buf. rewrite wrap_MeshVertex_wf in Hr by assumption.
  split; assumption.
Qed.

Lemma WaveDescriptor_roundtrip_wf
      (e : endianness) (c1 c2 : context) (d : WaveDescriptor) :
  wf_WaveDescriptor d ->
  exists buf,
    write_WaveDescriptor e c1 d = Some buf /\
    read_WaveDescriptor e c2 buf = Some d.
Proof.
  intros Hd.
  destruct (WaveDescriptor_write_read e c1 c2 d) as (buf & Hw & _ & Hr).
  exists buf. rewrite wrap_WaveDescriptor_wf in Hr by assumption.
  split; assumption.
Qed.

(** The bytes written do not depend on the context: the host and the
    shader compiler place every member at the same offset. *)
Lemma write_MeshVertex_context (e : endianness) (v : MeshVertex) :
  write_MeshVertex e Host v = write_MeshVertex e Metal v.
Proof.
  unfold write_MeshVertex, write_MeshVertex_into.
  destruct (MeshVertex_layout Host)
    as (t1 & Ht1 & Hs1 & A1 & A2 & A3 & A4 & A5 & A6 & A7 & A8).
  destruct (MeshVertex_layout Metal)
    as (t2 & Ht2 & Hs2 & B1 & B2 & B3 & B4 & B5 & B6 & B7 & B8).
  rewrite Ht1, Ht2. cbn [bind]. rewrite !length_zeroed, !Nat.eqb_refl.
  unfold MeshVertex_members, store_members, zeroed.
  rewrite A1, A2, A3, A4, A5, A6, A7, A8, B1, B2, B3, B4, B5, B6, B7, B8.
  rewrite Hs1, Hs2. reflexivity.
Qed.

Lemma write_WaveDescriptor_context (e : endianness) (d : WaveDescriptor) :
  write_WaveDescriptor e Host d = write_WaveDescriptor e Metal d.
Proof.
  unfold write_WaveDescriptor, write_WaveDescriptor_into.
  destruct (WaveDescriptor_layout Host) as (t1 & Ht1 & Hs1 & A1 & A2 & A3 & A4).
  destruct (WaveDescriptor_layout Metal) as (t2 & Ht2 & Hs2 & B1 & B2 & B3 & B4).
  rewrite Ht1, Ht2. cbn [bind]. rewrite !length_zeroed, !Nat.eqb_refl.
  unfold WaveDescriptor_members, store_members, zeroed.
  rewrite A1, A2, A3, A4, B1, B2, B3, B4.
  rewrite Hs1, Hs2. reflexivity.
Qed.

(** Every byte of the object is a byte of some member: whatever the object
    held before, writing a record leaves the encodings of its members, one
    after the other, and nothing else. *)
Lemma write_MeshVertex_into_bytes
      (e : endianness) (ctx : context) (v : MeshVertex) (buf0 : bytes) :
  List.length buf0 = 32 ->
  write_MeshVertex_into e ctx v buf0
  = Some (List.concat (map (fun m => encode_word e (snd m)) (MeshVertex_members v))).
Proof.
  intros Hlen.
  do 32 (destruct buf0 as [|? buf0]; [discriminate Hlen|]).
  destruct buf0; [|discriminate Hlen].
  destruct e, ctx; reflexivity.
Qed.

Lemma write_WaveDescriptor_into_bytes
      (e : endianness) (ctx : context) (d : WaveDescriptor) (buf0 : bytes) :
  List.length buf0 = 16 ->
  write_WaveDescriptor_into e ctx d buf0
  = Some (List.concat (map (fun m => encode_word e (snd m))
                      (WaveDescriptor_members d))).
Proof.
  intros Hlen.
  do 16 (destruct buf0 as [|? buf0]; [discriminate Hlen|]).
  destruct buf0; [|discriminate Hlen].
  destruct e, ctx; reflexivity.
Qed.

Lemma write_MeshVertex_bytes
      (e : endianness) (ctx : context) (v : MeshVertex) :
  write_MeshVertex e ctx v
  = Some (List.concat (map (fun m => encode_word e (snd m))
                           (MeshVertex_members v))).
Proof.
  unfold write_MeshVertex.
  destruct (MeshVertex_layout ctx) as (t & Ht & Hs & _).
  rewrite Ht. cbn [bind].
  apply write_MeshVertex_into_bytes.
  rewrite length_zeroed. exact Hs.
Qed.

Lemma write_WaveDescriptor_bytes
      (e : endianness) (ctx : context) (d : WaveDescriptor) :
  write_WaveDescriptor e ctx d
  = Some (List.concat (map (fun m => encode_word e (snd m))
                           (WaveDescriptor_members d))).
Proof.
  unfold write_WaveDescriptor.
  destruct (WaveDescriptor_layout ctx) as (t & Ht & Hs & _).
  rewrite Ht. cbn [bind].
  apply write_WaveDescriptor_into_bytes.
  rewrite length_zeroed. exact Hs.
Qed.

(** ** Why the records have no padding *)

Lemma align_up_multiple (n a : nat) :
  a <> 0 -> n mod a = 0 -> align_up n a = n.
Proof.
  intros Ha Hn. unfold align_up.
  apply Nat.Div0.div_exact in Hn.
  rewrite Hn at 1.
  replace (a * (n / a) + a - 1) with (n / a * a + (a - 1)) by lia.
  rewrite Nat.div_add_l by exact Ha.
  rewrite (Nat.div_small (a - 1) a) by lia.
  lia.
Qed.

(** Members that are all aligned like a scalar and a whole number of
    scalars long are placed one right after the other. *)
Lemma member_offsets_packed (fs : list (string * ctype)) :
  Forall scalar_shaped fs ->
  forall off, off mod scalar_size = 0 ->
              member_offsets fs off = packed_offsets fs off.
Proof.
  induction 1 as [|[n ft] r [Hal Hsz] _ IH]; intros off Hoff.
  - reflexivity.
  - cbn [member_offsets packed_offsets snd] in *.
    rewrite Hal, align_up_multiple by (unfold scalar_size; lia || assumption).
    rewrite IH; [reflexivity|].
    rewrite Nat.Div0.add_mod, Hoff, Hsz. reflexivity.
Qed.

(** Static assertions are checked by the elaboration: the ones that state
    the layout above would pass in both contexts, one that states another
    size stops the compilation. *)
Lemma layout_assertions_would_pass (ctx : context) :
  compile ctx (ShaderTypes_h ++ layout_assertions) = compile ctx ShaderTypes_h
  /\ compile ctx (ShaderTypes_h ++ [StaticAssert (SizeofIs "MeshVertex" 48)])
     = None.
Proof. destruct ctx; split; reflexivity. Qed.

(** A record of SIMD vectors in place of the packed ones would carry
    padding: the layout rule does insert it where alignments call for it. *)
Example simd_vectors_would_pad :
  let t := Tstruct [("position", Tsimd 3); ("normal", Tsimd 3);
                    ("uv", Tpacked 2)] in
  sizeof t = 48%nat /\
  padding_bytes t = [12; 13; 14; 15; 28; 29; 30; 31;
                     40; 41; 42; 43; 44; 45; 46; 47]%nat.
Proof. split; reflexivity. Qed.

(** * The layout contract *)

Local Open Scope nat_scope.

(** C2.  In either context a [MeshVertex] is exactly 8 single-precision
    components, 3 of [position], 3 of [normal] and 2 of [uv], that is 32
    bytes, none of which is padding; every [MeshVertex] value is written as
    32 bytes, which are the 4-byte encodings of its 8 components one after
    the other. *)
Theorem MeshVertex_is_eight_floats (ctx : context) :
  (exists t,
      type_in ctx "MeshVertex" = Some t /\
      sizeof t = 32 /\
      sizeof t = (3 + 3 + 2) * scalar_size /\
      components t "position" = 3 /\
      components t "normal" = 3 /\
      components t "uv" = 2 /\
      map leaf_kind (scalars t) = repeat F32 8 /\
      padding_bytes t = []) /\
  (forall (e : endianness) (v : MeshVertex),
      exists buf,
        write_MeshVertex e ctx v = Some buf /\
        List.length buf = 32 /\
        buf = List.concat (map (fun m => encode_word e (snd m))
                               (MeshVertex_members v))).
Proof.
  split.
  - destruct ctx; eexists; repeat split; vm_compute; reflexivity.
  - intros e v.
    destruct (MeshVertex_write_read e ctx ctx v) as (buf & Hw & Hl & _).
    exists buf. split; [exact Hw|]. split; [exact Hl|].
    rewrite write_MeshVertex_bytes in Hw. congruence.
Qed.

(** C3.  In either context a [WaveDescriptor] is one 32-bit unsigned
    integer followed by three single-precision floats, 16 bytes, stored in
    the declared order segmentCount, time, waveDensity, amplitude; every
    [WaveDescriptor] value is written as 16 bytes, which are the 4-byte
    encodings of its 4 members in that order. *)
Theorem WaveDescriptor_is_four_words (ctx : context) :
  (exists t,
      type_in ctx "WaveDescriptor" = Some t /\
      sizeof t = 16 /\
      sizeof t = (1 + 3) * scalar_size /\
      scalars t = [ (["segmentCount"], 0, U32);
                    (["time"], 4, F32);
                    (["waveDensity"], 8, F32);
                    (["amplitude"], 12, F32) ] /\
      padding_bytes t = []) /\
  (forall (e : endianness) (d : WaveDescriptor),
      exists buf,
        write_WaveDescriptor e ctx d = Some buf /\
        List.length buf = 16 /\
        buf = encode_word e (segmentCount d) ++ encode_word e (time d)
              ++ encode_word e (waveDensity d)
              ++ encode_word e (amplitude d)).
Proof.
  split.
  - destruct ctx; eexists; repeat split; vm_compute; reflexivity.
  - intros e d.
    destruct (WaveDescriptor_write_read e ctx ctx d) as (buf & Hw & Hl & _).
    exists buf. split; [exact Hw|]. split; [exact Hl|].
    rewrite write_WaveDescriptor_bytes in Hw.
    injection Hw as <-. cbn. rewrite app_nil_r. reflexivity.
Qed.

(** C4.  Whatever the context that includes the header, the members of
    [MeshVertex] come in the order position, normal, uv, each right after
    the previous one (offsets 0, 12, 24 for sizes 12, 12, 8), every
    component is a 32-bit float, the scalars sit at the same offsets in any
    two contexts, and no byte between or inside the members is padding. *)
Theorem MeshVertex_members_stable (c1 c2 : context) :
  exists t1 t2,
    type_in c1 "MeshVertex" = Some t1 /\
    type_in c2 "MeshVertex" = Some t2 /\
    member_extents t1 = [("position", 0, 12); ("normal", 12, 12);
                         ("uv", 24, 8)] /\
    member_extents t2 = member_extents t1 /\
    scalars t2 = scalars t1 /\
    Forall (fun l => leaf_kind l = F32) (scalars t1) /\
    padding_bytes t1 = [].
Proof.
  destruct c1, c2; do 2 eexists;
    (split; [reflexivity|]); (split; [reflexivity|]);
    (split; [reflexivity|]); (split; [reflexivity|]);
    (split; [reflexivity|]);
    (split; [repeat constructor | reflexivity]).
Qed.

(** C5.  The host definition, built on the fallback [packed_float3] of
    three floats, and the Metal definition, built on the built-in packed
    type, are different types with the same size and the same byte layout,
    for [MeshVertex] and for [WaveDescriptor]; the two translation units
    agree on [sizeof], and a record is written as the same bytes by both. *)
Theorem host_and_metal_layouts_agree :
  type_in Host "packed_float3"
    = Some (Tstruct [("x", Tfloat); ("y", Tfloat); ("z", Tfloat)]) /\
  type_in Metal "packed_float3" = Some (Tpacked 3) /\
  type_in Host "MeshVertex" <> type_in Metal "MeshVertex" /\
  sizeof_in Host "MeshVertex" = Some 32 /\
  sizeof_in Metal "MeshVertex" = Some 32 /\
  sizeof_in Host "WaveDescriptor" = Some 16 /\
  sizeof_in Metal "WaveDescriptor" = Some 16 /\
  option_map byte_layout (type_in Host "MeshVertex")
    = option_map byte_layout (type_in Metal "MeshVertex") /\
  option_map byte_layout (type_in Host "WaveDescriptor")
    = option_map byte_layout (type_in Metal "WaveDescriptor") /\
  (forall e v, write_MeshVertex e Host v = write_MeshVertex e Metal v) /\
  (forall e d, write_WaveDescriptor e Host d = write_WaveDescriptor e Metal d).
Proof.
  do 9 (split; [first [reflexivity | vm_compute; discriminate]|]).
  split.
  - apply write_MeshVertex_context.
  - apply write_WaveDescriptor_context.
Qed.

(** C9.  On the host the fallback [packed_float3] is three float members
    x, y, z in that order at offsets 0, 4, 8, 12 bytes in all; the members
    of [MeshVertex] are at offsets position 0, normal 12, uv 24 and those of
    [WaveDescriptor] at segmentCount 0, time 4, waveDensity 8,
    amplitude 12. *)
Theorem host_offsets :
  type_in Host "packed_float3"
    = Some (Tstruct [("x", Tfloat); ("y", Tfloat); ("z", Tfloat)]) /\
  option_map scalars (type_in Host "packed_float3")
    = Some [(["x"], 0, F32); (["y"], 4, F32); (["z"], 8, F32)] /\
  sizeof_in Host "packed_float3" = Some 12 /\
  option_map padding_bytes (type_in Host "packed_float3") = Some [] /\
  offsetof_in Host "MeshVertex" "position" = Some 0 /\
  offsetof_in Host "MeshVertex" "normal" = Some 12 /\
  offsetof_in Host "MeshVertex" "uv" = Some 24 /\
  offsetof_in Host "WaveDescriptor" "segmentCount" = Some 0 /\
  offsetof_in Host "WaveDescriptor" "time" = Some 4 /\
  offsetof_in Host "WaveDescriptor" "waveDensity" = Some 8 /\
  offsetof_in Host "WaveDescriptor" "amplitude" = Some 12.
Proof. repeat split; reflexivity. Qed.

Local Open Scope Z_scope.

(** C1.  A [MeshVertex] or a [WaveDescriptor] whose members hold valid
    values (finite floats, any 32-bit count), written with the host layout
    and read back with the Metal layout from the same bytes, comes back
    with every member equal to the original. *)
Theorem roundtrip_host_to_metal (e : endianness) :
  (forall v : MeshVertex,
      valid_MeshVertex v ->
      exists buf,
        write_MeshVertex e Host v = Some buf /\
        read_MeshVertex e Metal buf = Some v) /\
  (forall d : WaveDescriptor,
      valid_WaveDescriptor d ->
      exists buf,
        write_WaveDescriptor e Host d = Some buf /\
        read_WaveDescriptor e Metal buf = Some d).
Proof.
  split.
  - intros v Hv. apply MeshVertex_roundtrip_wf.
    apply valid_MeshVertex_wf. exact Hv.
  - intros d Hd. apply WaveDescriptor_roundtrip_wf.
    apply valid_WaveDescriptor_wf. exact Hd.
Qed.

(** C1 at a concrete vertex and a concrete descriptor. *)
Lemma roundtrip_host_to_metal_witness :
  (valid_MeshVertex sample_vertex /\
   exists buf,
     write_MeshVertex LittleEndian Host sample_vertex = Some buf /\
     read_MeshVertex LittleEndian Metal buf = Some sample_vertex) /\
  (valid_WaveDescriptor sample_descriptor /\
   exists buf,
     write_WaveDescriptor LittleEndian Host sample_descriptor = Some buf /\
     read_WaveDescriptor LittleEndian Metal buf = Some sample_descriptor).
Proof.
  assert (Hv : valid_MeshVertex sample_vertex)
    by (repeat constructor; vm_compute; congruence).
  assert (Hd : valid_WaveDescriptor sample_descriptor)
    by (repeat split; vm_compute; congruence).
  split.
  - split; [exact Hv|].
    exact (proj1 (roundtrip_host_to_metal LittleEndian) sample_vertex Hv).
  - split; [exact Hd|].
    exact (proj2 (roundtrip_host_to_metal LittleEndian) sample_descriptor Hd).
Defined.

(** C10.  The round trip keeps the exact 32-bit pattern of every member,
    for every pattern and between any two contexts: the only condition is
    that each member is a 32-bit pattern, which every float (NaN, the two
    infinities and negative zero included) and every count from 0 to
    2^32-1 is.  Nothing is normalised, clamped or rejected. *)
Theorem roundtrip_every_bit_pattern (e : endianness) (c1 c2 : context) :
  (forall v : MeshVertex,
      wf_MeshVertex v ->
      exists buf,
        write_MeshVertex e c1 v = Some buf /\
        read_MeshVertex e c2 buf = Some v) /\
  (forall d : WaveDescriptor,
      wf_WaveDescriptor d ->
      exists buf,
        write_WaveDescriptor e c1 d = Some buf /\
        read_WaveDescriptor e c2 buf = Some d) /\
  Forall (fun b => is_word32 b /\ is_finite (float_of_bits b) = false)
         [float_pos_inf; float_neg_inf; float_quiet_nan;
          float_signalling_nan] /\
  (is_word32 float_neg_zero /\
   float_of_bits float_neg_zero = S754_zero true) /\
  (is_word32 0 /\ is_word32 (2 ^ 32 - 1)).
Proof.
  split; [|split; [|split; [|split]]].
  - intros v Hv. apply MeshVertex_roundtrip_wf. exact Hv.
  - intros d Hd. apply WaveDescriptor_roundtrip_wf. exact Hd.
  - repeat constructor; cbv; congruence.
  - repeat split; cbv; congruence.
  - repeat split; cbv; congruence.
Qed.

(** C10 at records that hold NaNs, infinities, negative zero and the
    largest count. *)
Lemma roundtrip_every_bit_pattern_witness :
  (wf_MeshVertex special_vertex /\
   exists buf,
     write_MeshVertex BigEndian Host special_vertex = Some buf /\
     read_MeshVertex BigEndian Metal buf = Some special_vertex) /\
  (wf_WaveDescriptor special_descriptor /\
   exists buf,
     write_WaveDescriptor BigEndian Metal special_descriptor = Some buf /\
     read_WaveDescriptor BigEndian Host buf = Some special_descriptor).
Proof.
  assert (Hv : wf_MeshVertex special_vertex)
    by (repeat constructor; vm_compute; congruence).
  assert (Hd : wf_WaveDescriptor special_descriptor)
    by (repeat constructor; vm_compute; congruence).
  split.
  - split; [exact Hv|].
    exact (proj1 (roundtrip_every_bit_pattern BigEndian Host Metal)
                 special_vertex Hv).
  - split; [exact Hd|].
    exact (proj1 (proj2 (roundtrip_every_bit_pattern BigEndian Metal Host))
                 special_descriptor Hd).
Defined.

(** C7.  A [WaveDescriptor] whose [segmentCount] is 0 is written and read
    like any other: the write succeeds and gives 16 bytes, the read
    succeeds and gives the descriptor back, count 0 included.  The layout
    has no condition on the count. *)
Theorem zero_segmentCount_is_accepted
        (e : endianness) (c1 c2 : context) (d : WaveDescriptor) :
  segmentCount d = 0 ->
  is_word32 (time d) ->
  is_word32 (waveDensity d) ->
  is_word32 (amplitude d) ->
  exists buf,
    write_WaveDescriptor e c1 d = Some buf /\
    List.length buf = 16%nat /\
    read_WaveDescriptor e c2 buf = Some d /\
    option_map segmentCount (read_WaveDescriptor e c2 buf) = Some 0.
Proof.
  intros Hn Ht Hw Ha.
  assert (Hd : wf_WaveDescriptor d).
  { unfold wf_WaveDescriptor; cbn. rewrite Hn.
    repeat (constructor; try assumption); cbv; congruence. }
  destruct (WaveDescriptor_write_read e c1 c2 d) as (buf & Hwr & Hl & Hr).
  rewrite wrap_WaveDescriptor_wf in Hr by assumption.
  exists buf. repeat (split; [assumption|]).
  rewrite Hr. cbn. rewrite Hn. reflexivity.
Qed.

(** C7 at a concrete descriptor with a zero count. *)
Lemma zero_segmentCount_is_accepted_witness :
  exists buf,
    write_WaveDescriptor LittleEndian Host zero_count_descriptor = Some buf /\
    List.length buf = 16%nat /\
    read_WaveDescriptor LittleEndian Metal buf = Some zero_count_descriptor /\
    option_map segmentCount (read_WaveDescriptor LittleEndian Metal buf)
    = Some 0.
Proof.
  apply (zero_segmentCount_is_accepted
           LittleEndian Host Metal zero_count_descriptor).
  - reflexivity.
  - vm_compute; split; congruence.
  - vm_compute; split; congruence.
  - vm_compute; split; congruence.
Defined.

(** C8.  The vertex with position (0,0,0), normal (0,1,0) and uv (0,0) is
    written as one fixed sequence of 32 bytes, the same in the host and in
    the Metal context: all zero except the four bytes at offsets 16 to 19,
    which encode the float 1.0 (bit pattern 3F800000, in storage order
    00 00 80 3F on a little-endian target). *)
Theorem boundary_vertex_bytes (e : endianness) (ctx : context) :
  write_MeshVertex e ctx boundary_vertex
  = Some (repeat x00 16 ++ encode_word e float_one ++ repeat x00 12) /\
  List.length (repeat x00 16 ++ encode_word e float_one ++ repeat x00 12)
  = 32%nat /\
  encode_word LittleEndian float_one = [x00; x00; x80; x3f] /\
  encode_word BigEndian float_one = [x3f; x80; x00; x00] /\
  float_of_bits float_one = binary_normalize 24 128 1 0 false /\
  float_of_bits float_zero = S754_zero false.
Proof.
  destruct e, ctx; repeat split; vm_compute; reflexivity.
Qed.

Local Open Scope nat_scope.

(** C6, as the header has it.  The header carries no static assertion:
    nothing in it checks a size or an offset at compile time. *)
Lemma header_is_not_validated_by_construction :
  ~ validated_by_construction ShaderTypes_h.
Proof. intros [c Hc]. exact Hc. Qed.

(** C6, amended.  The header has no static assertion, in or out of the
    conditional block; the layout guarantee follows from the declarations
    alone: in either context every member of both records is aligned like
    a scalar and a whole number of scalars long, so the layout rule places
    each member right after the previous one, no byte is padding, and the
    scalars have the offsets and widths they have on the host. *)
Theorem layout_follows_from_declarations (ctx : context) :
  static_assertions ShaderTypes_h = [] /\
  exists fv fw,
    type_in ctx "MeshVertex" = Some (Tstruct fv) /\
    type_in ctx "WaveDescriptor" = Some (Tstruct fw) /\
    Forall scalar_shaped fv /\
    Forall scalar_shaped fw /\
    member_offsets fv 0 = packed_offsets fv 0 /\
    member_offsets fw 0 = packed_offsets fw 0 /\
    padding_bytes (Tstruct fv) = [] /\
    padding_bytes (Tstruct fw) = [] /\
    Some (byte_layout (Tstruct fv))
      = option_map byte_layout (type_in Host "MeshVertex") /\
    Some (byte_layout (Tstruct fw))
      = option_map byte_layout (type_in Host "WaveDescriptor").
Proof.
  split; [reflexivity|].
  assert (H : exists fv fw,
             type_in ctx "MeshVertex" = Some (Tstruct fv) /\
             type_in ctx "WaveDescriptor" = Some (Tstruct fw) /\
             Forall scalar_shaped fv /\ Forall scalar_shaped fw).
  { destruct ctx; do 2 eexists;
      (split; [reflexivity|]); (split; [reflexivity|]);
      split; repeat constructor. }
  destruct H as (fv & fw & Hv & Hw & Sv & Sw).
  exists fv, fw.
  split; [exact Hv|]. split; [exact Hw|].
  split; [exact Sv|]. split; [exact Sw|].
  split; [apply member_offsets_packed; [exact Sv | reflexivity]|].
  split; [apply member_offsets_packed; [exact Sw | reflexivity]|].
  destruct ctx; vm_compute in Hv, Hw;
    injection Hv as <-; injection Hw as <-;
    repeat split; reflexivity.
Qed.

(** * Further properties of the header *)

Local Open Scope nat_scope.

(** ** The conditional fallback *)


(** ** Repeated inclusion *)

Lemma expand_seen_once
      (files : string -> option (list directive)) (macros once : list string)
      (n : string) (k : nat) :
  existsb (String.eqb n) once = true ->
  expand_includes files macros once (repeat n k) = Some [].
Proof.
  intros H. induction k as [|k IH]; cbn [repeat expand_includes].
  - reflexivity.
  - rewrite H. exact IH.
Qed.

(** X2.  Including the header any number of times, at least once, in one
    translation unit gives what including it once gives, in either context:
    the first line of the header makes the later inclusions empty.  Without
    that line a second inclusion is an error, the records being declared
    twice. *)
Theorem repeated_inclusion (ctx : context) (k : nat) :
  compile_unit repository_files ctx (repeat "ShaderTypes.h" (S k))
  = compile ctx ShaderTypes_h /\
  is_some (compile ctx ShaderTypes_h) = true /\
  compile_unit (fun n => option_map (@tl directive) (repository_files n))
               ctx ["ShaderTypes.h"; "ShaderTypes.h"]
  = None.
Proof.
  split; [|split].
  - unfold compile_unit, compile.
    cbn [repeat expand_includes existsb].
    change (repository_files "ShaderTypes.h") with (Some ShaderTypes_h).
    cbn [option_map bind].
    replace (has_pragma_once (preprocess_file (predefined ctx) ShaderTypes_h))
      with true by (destruct ctx; reflexivity).
    rewrite expand_seen_once by reflexivity.
    cbn [bind]. rewrite app_nil_r. reflexivity.
  - destruct ctx; reflexivity.
  - destruct ctx; reflexivity.
Qed.

(** ** Packed members never pad *)

Lemma alignof_struct (fs : list (string * ctype)) :
  alignof (Tstruct fs) = members_align fs.
Proof. reflexivity. Qed.














(** ** From bytes to a record and back *)

Local Open Scope Z_scope.

Lemma byte_of_Z_mod (n : Z) : byte_of_Z n = byte_of_Z (n mod 256).
Proof.
  unfold byte_of_Z. change 255 with (Z.ones 8).
  rewrite !Z.land_ones by lia. change (2 ^ 8) with 256.
  rewrite Z.mod_mod by lia. reflexivity.
Qed.

Lemma Z_of_byte_range (b : byte) : 0 <= Z_of_byte b < 256.
Proof. unfold Z_of_byte. pose proof (Byte.to_N_bounded b). lia. Qed.

Lemma byte_of_Z_of_byte (b : byte) : byte_of_Z (Z_of_byte b) = b.
Proof.
  pose proof (Z_of_byte_range b) as Hr.
  unfold byte_of_Z. change 255 with (Z.ones 8).
  rewrite Z.land_ones by lia. change (2 ^ 8) with 256.
  rewrite Z.mod_small by exact Hr.
  unfold Z_of_byte. rewrite N2Z.id, Byte.of_to_N. reflexivity.
Qed.

Lemma byte_at_mod (w : Z) (i : nat) :
  byte_at w i = byte_of_Z ((w / 2 ^ (8 * Z.of_nat i)) mod 256).
Proof.
  unfold byte_at. rewrite byte_of_Z_mod.
  rewrite Z.shiftr_div_pow2 by lia. reflexivity.
Qed.

Lemma le_bytes_le_value (b0 b1 b2 b3 : byte) :
  le_bytes (le_value [b0; b1; b2; b3]) = [b0; b1; b2; b3].
Proof.
  pose proof (Z_of_byte_range b0). pose proof (Z_of_byte_range b1).
  pose proof (Z_of_byte_range b2). pose proof (Z_of_byte_range b3).
  unfold le_bytes. rewrite !byte_at_mod, !le_value_cons.
  change (le_value []) with 0.
  change (2 ^ (8 * Z.of_nat 0)) with 1.
  change (2 ^ (8 * Z.of_nat 1)) with 256.
  change (2 ^ (8 * Z.of_nat 2)) with 65536.
  change (2 ^ (8 * Z.of_nat 3)) with 16777216.
  assert (Hinv : forall n b, n = Z_of_byte b -> byte_of_Z n = b)
    by (intros n b ->; apply byte_of_Z_of_byte).
  repeat f_equal; apply Hinv; Z.div_mod_to_equations; lia.
Qed.

Lemma le_value_range (b0 b1 b2 b3 : byte) :
  is_word32 (le_value [b0; b1; b2; b3]).
Proof.
  pose proof (Z_of_byte_range b0). pose proof (Z_of_byte_range b1).
  pose proof (Z_of_byte_range b2). pose proof (Z_of_byte_range b3).
  unfold is_word32. rewrite !le_value_cons.
  change (le_value []) with 0. change (2 ^ 32) with 4294967296. lia.
Qed.

(** Decoding four bytes and encoding the word gives the four bytes back. *)
Lemma encode_decode_word (e : endianness) (b0 b1 b2 b3 : byte) :
  encode_word e (decode_word e [b0; b1; b2; b3]) = [b0; b1; b2; b3].
Proof.
  destruct e; cbn [encode_word decode_word rev app].
  - apply le_bytes_le_value.
  - rewrite le_bytes_le_value. reflexivity.
Qed.

Lemma decode_word_range (e : endianness) (b0 b1 b2 b3 : byte) :
  is_word32 (decode_word e [b0; b1; b2; b3]).
Proof. destruct e; apply le_value_range. Qed.

Lemma encode_word_wrap (e : endianness) (w : Z) :
  encode_word e (wrap32 w) = encode_word e w.
Proof.
  assert (H : le_bytes (wrap32 w) = le_bytes w).
  { unfold le_bytes, wrap32. rewrite !byte_at_mod.
    change (2 ^ (8 * Z.of_nat 0)) with 1.
    change (2 ^ (8 * Z.of_nat 1)) with 256.
    change (2 ^ (8 * Z.of_nat 2)) with 65536.
    change (2 ^ (8 * Z.of_nat 3)) with 16777216.
    change (2 ^ 32) with 4294967296.
    replace ((w mod 4294967296 / 1) mod 256) with ((w / 1) mod 256)
      by (Z.div_mod_to_equations; lia).
    replace ((w mod 4294967296 / 256) mod 256) with ((w / 256) mod 256)
      by (Z.div_mod_to_equations; lia).
    replace ((w mod 4294967296 / 65536) mod 256) with ((w / 65536) mod 256)
      by (Z.div_mod_to_equations; lia).
    replace ((w mod 4294967296 / 16777216) mod 256)
      with ((w / 16777216) mod 256)
      by (Z.div_mod_to_equations; lia).
    reflexivity. }
  destruct e; cbn [encode_word]; rewrite H; reflexivity.
Qed.

Local Open Scope nat_scope.

Lemma read_then_write_MeshVertex
      (e : endianness) (ctx : context) (buf : bytes) :
  List.length buf = 32 ->
  exists v,
    read_MeshVertex e ctx buf = Some v /\
    wf_MeshVertex v /\
    write_MeshVertex e ctx v = Some buf.
Proof.
  intros Hlen.
  exists {| position := {| x := decode_word e (load_bytes 0 4 buf);
                           y := decode_word e (load_bytes 4 4 buf);
                           z := decode_word e (load_bytes 8 4 buf) |};
            normal := {| x := decode_word e (load_bytes 12 4 buf);
                         y := decode_word e (load_bytes 16 4 buf);
                         z := decode_word e (load_bytes 20 4 buf) |};
            uv := {| x2 := decode_word e (load_bytes 24 4 buf);
                     y2 := decode_word e (load_bytes 28 4 buf) |} |}.
  do 32 (destruct buf as [|? buf]; [discriminate Hlen|]).
  destruct buf; [|discriminate Hlen].
  cbn [load_bytes firstn skipn].
  split; [|split].
  - destruct e, ctx; reflexivity.
  - repeat constructor; apply decode_word_range.
  - rewrite write_MeshVertex_bytes.
    cbn [MeshVertex_members map List.concat snd
         position normal uv x y z x2 y2].
    rewrite !encode_decode_word. reflexivity.
Qed.

Lemma read_then_write_WaveDescriptor
      (e : endianness) (ctx : context) (buf : bytes) :
  List.length buf = 16 ->
  exists d,
    read_WaveDescriptor e ctx buf = Some d /\
    wf_WaveDescriptor d /\
    write_WaveDescriptor e ctx d = Some buf.
Proof.
  intros Hlen.
  exists {| segmentCount := decode_word e (load_bytes 0 4 buf);
            time := decode_word e (load_bytes 4 4 buf);
            waveDensity := decode_word e (load_bytes 8 4 buf);
            amplitude := decode_word e (load_bytes 12 4 buf) |}.
  do 16 (destruct buf as [|? buf]; [discriminate Hlen|]).
  destruct buf; [|discriminate Hlen].
  cbn [load_bytes firstn skipn].
  split; [|split].
  - destruct e, ctx; reflexivity.
  - repeat constructor; apply decode_word_range.
  - rewrite write_WaveDescriptor_bytes.
    cbn [WaveDescriptor_members map List.concat snd
         segmentCount time waveDensity amplitude].
    rewrite !encode_decode_word. reflexivity.
Qed.

(** X4.  Every sequence of 32 bytes is a [MeshVertex] and every sequence of
    16 bytes a [WaveDescriptor]: reading it succeeds, gives a record of
    32-bit members, and writing that record gives the very same bytes.  No
    byte of either record is ignored by a read or left to chance by a
    write. *)
Theorem read_then_write (e : endianness) (ctx : context) (buf : bytes) :
  (List.length buf = 32 ->
   exists v, read_MeshVertex e ctx buf = Some v /\
             wf_MeshVertex v /\
             write_MeshVertex e ctx v = Some buf) /\
  (List.length buf = 16 ->
   exists d, read_WaveDescriptor e ctx buf = Some d /\
             wf_WaveDescriptor d /\
             write_WaveDescriptor e ctx d = Some buf).
Proof.
  split.
  - apply read_then_write_MeshVertex.
  - apply read_then_write_WaveDescriptor.
Qed.

(** X4 at the 16 bytes 0, 1, ..., 15, read as a [WaveDescriptor]. *)
Lemma read_then_write_witness :
  exists d,
    read_WaveDescriptor BigEndian Metal sample_bytes = Some d /\
    wf_WaveDescriptor d /\
    write_WaveDescriptor BigEndian Metal d = Some sample_bytes.
Proof.
  apply (proj2 (read_then_write BigEndian Metal sample_bytes)).
  reflexivity.
Defined.

(** ** What the bytes determine *)

Lemma write_MeshVertex_wrap (e : endianness) (ctx : context) (v : MeshVertex) :
  write_MeshVertex e ctx (wrap_MeshVertex v) = write_MeshVertex e ctx v.
Proof.
  rewrite !write_MeshVertex_bytes.
  unfold wrap_MeshVertex, MeshVertex_members.
  cbn [map List.concat snd position normal uv x y z x2 y2].
  rewrite !encode_word_wrap. reflexivity.
Qed.

Lemma write_WaveDescriptor_wrap
      (e : endianness) (ctx : context) (d : WaveDescriptor) :
  write_WaveDescriptor e ctx (wrap_WaveDescriptor d)
  = write_WaveDescriptor e ctx d.
Proof.
  rewrite !write_WaveDescriptor_bytes.
  unfold wrap_WaveDescriptor, WaveDescriptor_members.
  cbn [map List.concat snd segmentCount time waveDensity amplitude].
  rewrite !encode_word_wrap. reflexivity.
Qed.

(** X5.  Two records are written as the same bytes exactly when their
    members agree modulo 2^32, even when one is written by the host and the
    other by the shader compiler; so two records of 32-bit members with the
    same bytes are the same record. *)
Theorem same_bytes_same_record (e : endianness) (c1 c2 : context) :
  (forall v1 v2 : MeshVertex,
      write_MeshVertex e c1 v1 = write_MeshVertex e c2 v2 <->
      wrap_MeshVertex v1 = wrap_MeshVertex v2) /\
  (forall d1 d2 : WaveDescriptor,
      write_WaveDescriptor e c1 d1 = write_WaveDescriptor e c2 d2 <->
      wrap_WaveDescriptor d1 = wrap_WaveDescriptor d2) /\
  (forall v1 v2 : MeshVertex,
      wf_MeshVertex v1 -> wf_MeshVertex v2 ->
      write_MeshVertex e c1 v1 = write_MeshVertex e c2 v2 -> v1 = v2) /\
  (forall d1 d2 : WaveDescriptor,
      wf_WaveDescriptor d1 -> wf_WaveDescriptor d2 ->
      write_WaveDescriptor e c1 d1 = write_WaveDescriptor e c2 d2 -> d1 = d2).
Proof.
  assert (Hv : forall v1 v2 : MeshVertex,
             write_MeshVertex e c1 v1 = write_MeshVertex e c2 v2 <->
             wrap_MeshVertex v1 = wrap_MeshVertex v2).
  { intros v1 v2. split; intros H.
    - destruct (MeshVertex_write_read e c1 Host v1) as (b1 & W1 & _ & R1).
      destruct (MeshVertex_write_read e c2 Host v2) as (b2 & W2 & _ & R2).
      rewrite W1, W2 in H. injection H as ->. congruence.
    - rewrite <- (write_MeshVertex_wrap e c1 v1),
              <- (write_MeshVertex_wrap e c2 v2), H.
      rewrite !write_MeshVertex_bytes. reflexivity. }
  assert (Hd : forall d1 d2 : WaveDescriptor,
             write_WaveDescriptor e c1 d1 = write_WaveDescriptor e c2 d2 <->
             wrap_WaveDescriptor d1 = wrap_WaveDescriptor d2).
  { intros d1 d2. split; intros H.
    - destruct (WaveDescriptor_write_read e c1 Host d1) as (b1 & W1 & _ & R1).
      destruct (WaveDescriptor_write_read e c2 Host d2) as (b2 & W2 & _ & R2).
      rewrite W1, W2 in H. injection H as ->. congruence.
    - rewrite <- (write_WaveDescriptor_wrap e c1 d1),
              <- (write_WaveDescriptor_wrap e c2 d2), H.
      rewrite !write_WaveDescriptor_bytes. reflexivity. }
  split; [exact Hv|]. split; [exact Hd|]. split.
  - intros v1 v2 H1 H2 H. apply Hv in H.
    rewrite !wrap_MeshVertex_wf in H by assumption. exact H.
  - intros d1 d2 H1 H2 H. apply Hd in H.
    rewrite !wrap_WaveDescriptor_wf in H by assumption. exact H.
Qed.

(** X5 at two descriptors whose counts differ by 2^32: they are written as
    the same bytes. *)
Lemma same_bytes_same_record_witness :
  wrap_WaveDescriptor sample_descriptor
  = wrap_WaveDescriptor overflowing_descriptor /\
  write_WaveDescriptor LittleEndian Host sample_descriptor
  = write_WaveDescriptor LittleEndian Metal overflowing_descriptor.
Proof.
  assert (H : wrap_WaveDescriptor sample_descriptor
              = wrap_WaveDescriptor overflowing_descriptor)
    by reflexivity.
  split; [exact H|].
  exact (proj2 (proj1 (proj2 (same_bytes_same_record LittleEndian Host Metal))
                      sample_descriptor overflowing_descriptor) H).
Defined.

(** ** Access to single members *)

Lemma path_eqb_eq (p q : list string) : path_eqb p q = true <-> p = q.
Proof.
  unfold path_eqb. destruct (list_eq_dec string_dec p q); split;
    congruence.
Qed.

Lemma scalar_offset_Some (t : ctype) (p : list string) (o : nat) :
  scalar_offset t p = Some o ->
  exists l, In l (scalars t) /\ leaf_path l = p /\ leaf_offset l = o.
Proof.
  unfold scalar_offset. intros H.
  destruct (find _ (scalars t)) as [l|] eqn:Hf; [|discriminate H].
  apply find_some in Hf. destruct Hf as [Hin Hp].
  apply path_eqb_eq in Hp. injection H as H.
  exists l. repeat split; [exact Hin | symmetry; exact Hp | exact H].
Qed.

Lemma scalar_offset_member (t : ctype) (p : list string) :
  In p (member_paths t) <-> exists o, scalar_offset t p = Some o.
Proof.
  unfold member_paths, scalar_offset. split.
  - intros Hin. apply in_map_iff in Hin. destruct Hin as (l & Hl & Hin).
    destruct (find (fun l0 => path_eqb p (leaf_path l0)) (scalars t))
      as [l'|] eqn:Hf.
    + eexists. reflexivity.
    + exfalso.
      pose proof (find_none _ _ Hf l Hin) as Hn. cbn in Hn.
      rewrite Hl in Hn.
      assert (path_eqb p p = true) by (apply path_eqb_eq; reflexivity).
      congruence.
  - intros [o Ho]. apply scalar_offset_Some in Ho.
    destruct Ho as (l & Hin & Hp & _).
    apply in_map_iff. exists l. split; assumption.
Qed.

Lemma leaves_disjoint_spec (ls : list leaf) (size : nat) (l1 l2 : leaf) :
  leaves_disjoint ls size = true ->
  In l1 ls -> In l2 ls ->
  leaf_offset l1 + scalar_size <= size /\
  (leaf_path l1 = leaf_path l2 \/
   leaf_offset l1 + scalar_size <= leaf_offset l2 \/
   leaf_offset l2 + scalar_size <= leaf_offset l1).
Proof.
  unfold leaves_disjoint. intros H H1 H2.
  rewrite forallb_forall in H. specialize (H l1 H1).
  apply andb_true_iff in H. destruct H as [Hb Hd].
  rewrite forallb_forall in Hd. specialize (Hd l2 H2).
  split; [apply Nat.leb_le; exact Hb|].
  apply orb_true_iff in Hd. destruct Hd as [Hd|Hd].
  - apply orb_true_iff in Hd. destruct Hd as [Hd|Hd].
    + left. apply path_eqb_eq. exact Hd.
    + right. left. apply Nat.leb_le. exact Hd.
  - right. right. apply Nat.leb_le. exact Hd.
Qed.

(** In both contexts the scalars of the two records share no byte. *)
Lemma records_disjoint (ctx : context) (name : string) (t : ctype) :
  name = "MeshVertex" \/ name = "WaveDescriptor" ->
  type_in ctx name = Some t ->
  leaves_disjoint (scalars t) (sizeof t) = true.
Proof.
  intros [-> | ->] Ht; destruct ctx; vm_compute in Ht;
    injection Ht as <-; reflexivity.
Qed.

Lemma record_paths (ctx : context) (name : string) (t : ctype) :
  name = "MeshVertex" \/ name = "WaveDescriptor" ->
  type_in ctx name = Some t ->
  member_paths t
  = (if String.eqb name "MeshVertex"
     then [["position"; "x"]; ["position"; "y"]; ["position"; "z"];
           ["normal"; "x"]; ["normal"; "y"]; ["normal"; "z"];
           ["uv"; "x"]; ["uv"; "y"]]
     else [["segmentCount"]; ["time"]; ["waveDensity"]; ["amplitude"]]).
Proof.
  intros [-> | ->] Ht; destruct ctx; vm_compute in Ht;
    injection Ht as <-; reflexivity.
Qed.

(** A store to one scalar of a type whose scalars share no byte. *)
Lemma store_member_frame
      (e : endianness) (t : ctype) (p : list string) (w : Z) (buf : bytes) :
  leaves_disjoint (scalars t) (sizeof t) = true ->
  List.length buf = sizeof t ->
  In p (member_paths t) ->
  exists buf',
    store_members e t [(p, w)] buf = Some buf' /\
    List.length buf' = sizeof t /\
    load_member e t p buf' = Some (wrap32 w) /\
    forall q, q <> p -> load_member e t q buf' = load_member e t q buf.
Proof.
  intros Hd Hlen Hp.
  apply scalar_offset_member in Hp. destruct Hp as [o Ho].
  destruct (scalar_offset_Some t p o Ho) as (l & Hl & Hlp & Hlo).
  destruct (leaves_disjoint_spec _ _ l l Hd Hl Hl) as [Hb _].
  destruct (store_word_spec e o w buf) as (buf' & S & L & R & F);
    [rewrite Hlen, <- Hlo; exact Hb|].
  exists buf'. cbn [store_members]. unfold load_member.
  rewrite Ho. cbn [bind]. rewrite S. cbn [bind].
  split; [reflexivity|]. split; [congruence|]. split; [exact R|].
  intros q Hq.
  destruct (scalar_offset t q) as [o'|] eqn:Ho'; [|reflexivity].
  cbn [bind]. apply F.
  destruct (scalar_offset_Some t q o' Ho') as (l' & Hl' & Hlp' & Hlo').
  destruct (leaves_disjoint_spec _ _ l l' Hd Hl Hl') as [_ [Heq|Hdis]].
  - congruence.
  - rewrite <- Hlo, <- Hlo'. lia.
Qed.

Lemma record_store_frame
      (e : endianness) (ctx : context) (name : string) (t : ctype)
      (p : list string) (w : Z) (buf : bytes) :
  name = "MeshVertex" \/ name = "WaveDescriptor" ->
  type_in ctx name = Some t ->
  List.length buf = sizeof t ->
  In p (member_paths t) ->
  exists buf',
    store_members e t [(p, w)] buf = Some buf' /\
    List.length buf' = sizeof t /\
    load_member e t p buf' = Some (wrap32 w) /\
    forall q, q <> p -> load_member e t q buf' = load_member e t q buf.
Proof.
  intros Hn Ht Hlen Hp.
  apply store_member_frame; try assumption.
  exact (records_disjoint ctx name t Hn Ht).
Qed.

(** X6.  In an object of either record, in either context, a store to one
    member succeeds, keeps the size of the object, is read back from that
    member (wrapped to 32 bits), and leaves what every other member reads
    unchanged. *)
Theorem member_store_frame
        (e : endianness) (ctx : context) (name : string) (t : ctype)
        (p : list string) (w : Z) (buf : bytes) :
  name = "MeshVertex" \/ name = "WaveDescriptor" ->
  type_in ctx name = Some t ->
  List.length buf = sizeof t ->
  In p (member_paths t) ->
  exists buf',
    store_members e t [(p, w)] buf = Some buf' /\
    List.length buf' = sizeof t /\
    load_member e t p buf' = Some (wrap32 w) /\
    forall q, q <> p -> load_member e t q buf' = load_member e t q buf.
Proof.
  apply record_store_frame.
Qed.


(** X6 at the [time] member of a zeroed [WaveDescriptor]. *)
Lemma member_store_frame_witness :
  exists buf',
    store_members LittleEndian WaveDescriptor_type [(["time"], float_one)]
                  (zeroed WaveDescriptor_type) = Some buf' /\
    List.length buf' = sizeof WaveDescriptor_type /\
    load_member LittleEndian WaveDescriptor_type ["time"] buf'
    = Some (wrap32 float_one) /\
    forall q, q <> ["time"] ->
              load_member LittleEndian WaveDescriptor_type q buf'
              = load_member LittleEndian WaveDescriptor_type q
                            (zeroed WaveDescriptor_type).
Proof.
  apply (member_store_frame LittleEndian Metal "WaveDescriptor"
                            WaveDescriptor_type ["time"] float_one
                            (zeroed WaveDescriptor_type)).
  - right. reflexivity.
  - reflexivity.
  - reflexivity.
  - right. left. reflexivity.
Defined.


(** ** How stores compose *)

Lemma store_members_app (e : endianness) (t : ctype)
      (ms1 ms2 : list (list string * Z)) (buf : bytes) :
  store_members e t (ms1 ++ ms2) buf
  = (b <- store_members e t ms1 buf ;; store_members e t ms2 b).
Proof.
  revert buf. induction ms1 as [|[p w] r IH]; intros buf; [reflexivity|].
  cbn [app store_members].
  destruct (scalar_offset t p) as [o|]; [|reflexivity]. cbn [bind].
  destruct (store_word e o w buf) as [b|]; [|reflexivity]. cbn [bind].
  apply IH.
Qed.

(** Two objects of a record in which every member reads the same are the
    same bytes. *)
Lemma loads_determine
      (e : endianness) (ctx : context) (name : string) (t : ctype)
      (b b' : bytes) :
  name = "MeshVertex" \/ name = "WaveDescriptor" ->
  type_in ctx name = Some t ->
  List.length b = sizeof t -> List.length b' = sizeof t ->
  (forall q, load_member e t q b = load_member e t q b') ->
  b = b'.
Proof.
  intros [-> | ->] Ht Hb Hb' H.
  - destruct (MeshVertex_layout ctx) as (t0 & Ht0 & Hs & _).
    rewrite Ht in Ht0. injection Ht0 as <-. rewrite Hs in Hb, Hb'.
    destruct (read_then_write_MeshVertex e ctx b Hb) as (v & R & _ & W).
    destruct (read_then_write_MeshVertex e ctx b' Hb') as (v' & R' & _ & W').
    assert (Hr : read_MeshVertex e ctx b = read_MeshVertex e ctx b').
    { unfold read_MeshVertex. rewrite Ht. cbn [bind].
      rewrite !H. reflexivity. }
    congruence.
  - destruct (WaveDescriptor_layout ctx) as (t0 & Ht0 & Hs & _).
    rewrite Ht in Ht0. injection Ht0 as <-. rewrite Hs in Hb, Hb'.
    destruct (read_then_write_WaveDescriptor e ctx b Hb) as (d & R & _ & W).
    destruct (read_then_write_WaveDescriptor e ctx b' Hb')
      as (d' & R' & _ & W').
    assert (Hr : read_WaveDescriptor e ctx b = read_WaveDescriptor e ctx b').
    { unfold read_WaveDescriptor. rewrite Ht. cbn [bind].
      rewrite !H. reflexivity. }
    congruence.
Qed.

Lemma store_non_member (e : endianness) (t : ctype) (p : list string)
      (w : Z) (ms : list (list string * Z)) (buf : bytes) :
  ~ In p (member_paths t) ->
  store_members e t ((p, w) :: ms) buf = None.
Proof.
  intros Hout. cbn [store_members].
  destruct (scalar_offset t p) as [o|] eqn:Ho; [|reflexivity].
  exfalso. apply Hout. apply scalar_offset_member. exists o. exact Ho.
Qed.

(** X9.  In an object of either record, stores to two different members
    give the same object in either order, and of two stores to the same
    member the second one prevails; with a path that is no member both
    sides fail alike. *)
Theorem member_stores_compose
        (e : endianness) (ctx : context) (name : string) (t : ctype)
        (p q : list string) (w1 w2 : Z) (buf : bytes) :
  name = "MeshVertex" \/ name = "WaveDescriptor" ->
  type_in ctx name = Some t ->
  List.length buf = sizeof t ->
  (p <> q ->
   store_members e t [(p, w1); (q, w2)] buf
   = store_members e t [(q, w2); (p, w1)] buf) /\
  store_members e t [(p, w1); (p, w2)] buf
  = store_members e t [(p, w2)] buf.
Proof.
  intros Hn Ht Hlen.
  pose proof (list_eq_dec string_dec) as path_dec.
  change [(p, w1); (q, w2)] with ([(p, w1)] ++ [(q, w2)]).
  change [(q, w2); (p, w1)] with ([(q, w2)] ++ [(p, w1)]).
  change [(p, w1); (p, w2)] with ([(p, w1)] ++ [(p, w2)]).
  rewrite !store_members_app.
  destruct (in_dec path_dec p (member_paths t)) as [Hp|Hp].
  2:{ rewrite !(store_non_member e t p) by exact Hp. cbn [bind].
      split; [|reflexivity].
      intros _. destruct (store_members e t [(q, w2)] buf); cbn [bind];
        [symmetry; apply store_non_member; exact Hp | reflexivity]. }
  destruct (record_store_frame e ctx name t p w1 buf Hn Ht Hlen Hp)
    as (b1 & S1 & L1 & R1 & F1).
  rewrite S1. cbn [bind].
  split.
  - intros Hpq.
    destruct (in_dec path_dec q (member_paths t)) as [Hq|Hq].
    2:{ rewrite !(store_non_member e t q) by exact Hq. reflexivity. }
    destruct (record_store_frame e ctx name t q w2 b1 Hn Ht L1 Hq)
      as (b12 & S12 & L12 & R12 & F12).
    destruct (record_store_frame e ctx name t q w2 buf Hn Ht Hlen Hq)
      as (b2 & S2 & L2 & R2 & F2).
    destruct (record_store_frame e ctx name t p w1 b2 Hn Ht L2 Hp)
      as (b21 & S21 & L21 & R21 & F21).
    rewrite S12, S2. cbn [bind]. rewrite S21. f_equal.
    apply (loads_determine e ctx name t); try assumption.
    intros r.
    destruct (path_dec r q) as [->|Hrq].
    + rewrite R12, (F21 q) by congruence. symmetry. exact R2.
    + rewrite (F12 r) by exact Hrq.
      destruct (path_dec r p) as [->|Hrp].
      * rewrite R1, R21. reflexivity.
      * rewrite (F1 r), (F21 r), (F2 r) by assumption. reflexivity.
  - destruct (record_store_frame e ctx name t p w2 b1 Hn Ht L1 Hp)
      as (b11 & S11 & L11 & R11 & F11).
    destruct (record_store_frame e ctx name t p w2 buf Hn Ht Hlen Hp)
      as (b2 & S2 & L2 & R2 & F2).
    rewrite S11, S2. f_equal.
    apply (loads_determine e ctx name t); try assumption.
    intros r.
    destruct (path_dec r p) as [->|Hrp].
    + rewrite R11, R2. reflexivity.
    + rewrite (F11 r), (F1 r), (F2 r) by assumption. reflexivity.
Qed.

(** X9 at the [time] and [amplitude] members of a zeroed
    [WaveDescriptor]. *)
Lemma member_stores_compose_witness :
  store_members LittleEndian WaveDescriptor_type
                [(["time"], float_one); (["amplitude"], float_neg_zero)]
                (zeroed WaveDescriptor_type)
  = store_members LittleEndian WaveDescriptor_type
                  [(["amplitude"], float_neg_zero); (["time"], float_one)]
                  (zeroed WaveDescriptor_type).
Proof.
  apply (proj1 (member_stores_compose
                  LittleEndian Host "WaveDescriptor" WaveDescriptor_type
                  ["time"] ["amplitude"] float_one float_neg_zero
                  (zeroed WaveDescriptor_type)
                  (or_intror eq_refl) eq_refl eq_refl)).
  discriminate.
Defined.

(** ** Updating a member in place *)

(** Splits on the next comparison of a name with a member name. *)
Ltac split_name :=
  match goal with
  | |- context [String.eqb ?s ?k] =>
      destruct (String.eqb_spec s k) as [->|?]
  end.

Lemma update_MeshVertex_in_place
      (e : endianness) (ctx : context) (p : list string) (w : Z)
      (v : MeshVertex) :
  (buf <- write_MeshVertex e ctx v ;;
   t <- type_in ctx "MeshVertex" ;;
   store_members e t [(p, w)] buf)
  = (v' <- set_MeshVertex_member p w v ;; write_MeshVertex e ctx v').
Proof.
  rewrite write_MeshVertex_bytes. cbn [bind].
  destruct (MeshVertex_layout ctx)
    as (t & Ht & Hs & A1 & A2 & A3 & A4 & A5 & A6 & A7 & A8).
  rewrite Ht. cbn [bind].
  pose proof (record_paths ctx "MeshVertex" t (or_introl eq_refl) Ht)
    as Hpaths.
  cbn [String.eqb Ascii.eqb Bool.eqb] in Hpaths.
  assert (Hnone : ~ In p (member_paths t) ->
                  forall buf, store_members e t [(p, w)] buf = None)
    by (intros Hout buf; apply store_non_member; exact Hout).
  rewrite Hpaths in Hnone. cbn [In] in Hnone.
  unfold set_MeshVertex_member.
  destruct p as [|m [|c [|c' r]]];
    try (cbn [bind]; apply Hnone; intuition congruence).
  unfold set_packed_float3_member, set_simd_packed_float2_member.
  repeat split_name; cbn [bind];
    try (apply Hnone; intuition congruence);
    rewrite write_MeshVertex_bytes; cbn [store_members];
    rewrite ?A1, ?A2, ?A3, ?A4, ?A5, ?A6, ?A7, ?A8; cbn [bind];
    destruct e; reflexivity.
Qed.

Lemma update_WaveDescriptor_in_place
      (e : endianness) (ctx : context) (p : list string) (w : Z)
      (d : WaveDescriptor) :
  (buf <- write_WaveDescriptor e ctx d ;;
   t <- type_in ctx "WaveDescriptor" ;;
   store_members e t [(p, w)] buf)
  = (d' <- set_WaveDescriptor_member p w d ;; write_WaveDescriptor e ctx d').
Proof.
  rewrite write_WaveDescriptor_bytes. cbn [bind].
  destruct (WaveDescriptor_layout ctx) as (t & Ht & Hs & A1 & A2 & A3 & A4).
  rewrite Ht. cbn [bind].
  pose proof (record_paths ctx "WaveDescriptor" t (or_intror eq_refl) Ht)
    as Hpaths.
  cbn [String.eqb Ascii.eqb Bool.eqb] in Hpaths.
  assert (Hnone : ~ In p (member_paths t) ->
                  forall buf, store_members e t [(p, w)] buf = None)
    by (intros Hout buf; apply store_non_member; exact Hout).
  rewrite Hpaths in Hnone. cbn [In] in Hnone.
  unfold set_WaveDescriptor_member.
  destruct p as [|m [|c r]];
    try (cbn [bind]; apply Hnone; intuition congruence).
  repeat split_name; cbn [bind];
    try (apply Hnone; intuition congruence);
    rewrite write_WaveDescriptor_bytes; cbn [store_members];
    rewrite ?A1, ?A2, ?A3, ?A4; cbn [bind];
    destruct e; reflexivity.
Qed.

(** X8.  Storing a word into one member of a written record gives the
    bytes of the record with that member assigned: an update in place and
    a fresh write of the updated record cannot be told apart.  For a path
    that names no member, both fail. *)
Theorem update_in_place
        (e : endianness) (ctx : context) (p : list string) (w : Z) :
  (forall v : MeshVertex,
      (buf <- write_MeshVertex e ctx v ;;
       t <- type_in ctx "MeshVertex" ;;
       store_members e t [(p, w)] buf)
      = (v' <- set_MeshVertex_member p w v ;; write_MeshVertex e ctx v')) /\
  (forall d : WaveDescriptor,
      (buf <- write_WaveDescriptor e ctx d ;;
       t <- type_in ctx "WaveDescriptor" ;;
       store_members e t [(p, w)] buf)
      = (d' <- set_WaveDescriptor_member p w d ;;
         write_WaveDescriptor e ctx d')).
Proof.
  split.
  - apply update_MeshVertex_in_place.
  - apply update_WaveDescriptor_in_place.
Qed.

(** ** Records stored back to back *)

Lemma load_word_app (e : endianness) (o : nat) (buf rest : bytes) :
  o + scalar_size <= List.length buf ->
  load_word e o (buf ++ rest) = load_word e o buf.
Proof.
  intros H. unfold load_word, load_bytes.
  rewrite length_app.
  destruct (Nat.leb_spec (o + scalar_size) (List.length buf)); [|lia].
  destruct (Nat.leb_spec (o + scalar_size)
                         (List.length buf + List.length rest)); [|lia].
  rewrite skipn_app, firstn_app, length_skipn.
  replace (scalar_size - (List.length buf - o)) with 0 by lia.
  cbn [firstn]. rewrite app_nil_r. reflexivity.
Qed.

(** A read looks at the first 32 bytes only. *)
Lemma read_MeshVertex_app
      (e : endianness) (ctx : context) (buf rest : bytes) :
  List.length buf = 32 ->
  read_MeshVertex e ctx (buf ++ rest) = read_MeshVertex e ctx buf.
Proof.
  intros Hlen.
  destruct (MeshVertex_layout ctx)
    as (t & Ht & Hs & A1 & A2 & A3 & A4 & A5 & A6 & A7 & A8).
  unfold read_MeshVertex, load_member. rewrite Ht. cbn [bind].
  rewrite A1, A2, A3, A4, A5, A6, A7, A8. cbn [bind].
  rewrite !load_word_app by (unfold scalar_size; lia).
  reflexivity.
Qed.

(** X10.  Vertices written one after the other form an array of stride 32:
    when the host writes the vertices [vs] and the bytes are laid end to
    end, the shader (or the host) reads the [k]-th vertex, every member
    wrapped to 32 bits, at byte offset [32 * k], whatever follows it. *)
Theorem vertex_array_stride
        (e : endianness) (c1 c2 : context)
        (vs : list MeshVertex) (bufs : list bytes) (k : nat) (v : MeshVertex) :
  Forall2 (fun v b => write_MeshVertex e c1 v = Some b) vs bufs ->
  nth_error vs k = Some v ->
  read_MeshVertex e c2 (skipn (32 * k) (List.concat bufs))
  = Some (wrap_MeshVertex v).
Proof.
  intros Hw. revert k. induction Hw as [|v0 b0 vs bufs Hw0 _ IH]; intros k Hk.
  - destruct k; discriminate Hk.
  - destruct (MeshVertex_write_read e c1 c2 v0) as (b & Hb & Hl & Hr).
    rewrite Hw0 in Hb. injection Hb as <-.
    cbn [List.concat]. destruct k as [|k].
    + cbn in Hk. injection Hk as <-.
      rewrite Nat.mul_0_r. cbn [skipn].
      rewrite read_MeshVertex_app by exact Hl.
      exact Hr.
    + cbn [nth_error] in Hk.
      rewrite skipn_app, Hl.
      rewrite (skipn_all2 b0) by lia. cbn [app].
      replace (32 * S k - 32) with (32 * k) by lia.
      apply IH. exact Hk.
Qed.

(** X10 at the second of three vertices written by the host and read with
    the Metal layout. *)
Lemma vertex_array_stride_witness :
  read_MeshVertex LittleEndian Metal
                  (skipn (32 * 1) (List.concat sample_vertex_bytes))
  = Some (wrap_MeshVertex boundary_vertex).
Proof.
  apply (vertex_array_stride LittleEndian Host Metal
                             sample_vertices sample_vertex_bytes 1
                             boundary_vertex).
  - repeat constructor.
  - reflexivity.
Defined.
